(** * The Enaml example documentation generator

    A shallow embedding of docs/source/examples/example_doc_generator.py:
    the text transforms (extract_docstring, clean_docstring), the two RST
    templates, generate_example_doc and the walk of main, followed by the
    properties established about them.

    Conventions of the model.
    - A Python str or bytes value is a list of 8-bit characters; text-mode
      decoding and [.encode()] are the identity and case mapping is the one of
      the ASCII letters. This is what Python does on characters below 128
      under every ASCII-compatible encoding; the properties that give the
      bytes of a document or the characters of a title are stated for such
      text ([is_ascii]).
    - Exceptions are of class Exception (IndexError, FileNotFoundError and
      the like) or not (SystemExit, KeyboardInterrupt); the except clause of
      generate_example_doc takes the former only.
    - Paths follow posixpath (separator [/]).
    - The process state threaded through the code is a [World]: the regular
      files, the directories, [sys.path] and the lines printed so far.
    - The GUI side (importing the example under the enaml import hooks and
      grabbing the window) is the external capability [snapshot], a variable of
      the section that holds generate_example_doc and main. *)

From Stdlib Require Import Strings.String Strings.Ascii ZArith Lia.
From stdpp Require Import base option list strings gmap.
From Equations Require Import Equations.
From Equations.Prop Require Import Logic.

(** ** Characters and text *)

Abbreviation text := (list ascii).

(** A text written as a literal. *)
Definition txt (s : string) : text := list_ascii_of_string s.

Definition chr (n : nat) : ascii := ascii_of_nat n.
Definition ord (c : ascii) : nat := nat_of_ascii c.

Definition LF : ascii := chr 10.
Definition CR : ascii := chr 13.
Definition DQUOTE : ascii := chr 34.
Definition BACKQUOTE : ascii := chr 96.
Definition SLASH : ascii := chr 47.
Definition BACKSLASH : ascii := chr 92.
Definition DOT : ascii := chr 46.
Definition UNDERSCORE : ascii := chr 95.
Definition SPACE : ascii := chr 32.

Definition in_range (lo hi : nat) (c : ascii) : bool :=
  (lo <=? ord c) && (ord c <=? hi).

Definition is_upper (c : ascii) : bool := in_range 65 90 c.
Definition is_lower (c : ascii) : bool := in_range 97 122 c.
Definition is_alpha (c : ascii) : bool := is_upper c || is_lower c.
Definition to_upper (c : ascii) : ascii := if is_lower c then chr (ord c - 32) else c.
Definition to_lower (c : ascii) : ascii := if is_upper c then chr (ord c + 32) else c.

(** [str.isspace] on the code points below 256: tab to carriage return, the
    four separators 28..31, the blank, NEL and the no-break space. *)
Definition is_space (c : ascii) : bool :=
  in_range 9 13 c || in_range 28 32 c
  || bool_decide (ord c = 133) || bool_decide (ord c = 160).

(** The class [[A-Za-z_]] of the regular expression in clean_docstring. *)
Definition is_identifier_char (c : ascii) : bool :=
  is_alpha c || bool_decide (c = UNDERSCORE).

Fixpoint take_while (p : ascii → bool) (s : text) : text :=
  match s with
  | c :: s' => if p c then c :: take_while p s' else []
  | [] => []
  end.

Fixpoint drop_while (p : ascii → bool) (s : text) : text :=
  match s with
  | c :: s' => if p c then drop_while p s' else s
  | [] => []
  end.

(** ** The str and bytes methods the generator calls *)

Definition startswith (s p : text) : bool := bool_decide (p `prefix_of` s).
Definition endswith (s p : text) : bool := bool_decide (p `suffix_of` s).

(** [s.find(sub)]: the lowest index where [sub] starts, [None] for Python's -1. *)
Fixpoint str_find (sub s : text) : option nat :=
  if startswith s sub then Some 0
  else match s with
       | [] => None
       | _ :: s' => S <$> str_find sub s'
       end.

(** The integer Python returns. *)
Definition str_find_z (sub s : text) : Z :=
  match str_find sub s with
  | Some i => Z.of_nat i
  | None => (-1)%Z
  end.

(** Slices [s[:i]] and [s[i:]]; a negative index counts from the end and is
    clipped at the start of the text. *)
Definition slice_index (i : Z) (s : text) : nat :=
  if (i <? 0)%Z then Z.to_nat (Z.of_nat (length s) + i) else Z.to_nat i.
Definition slice_to (i : Z) (s : text) : text := take (slice_index i s) s.
Definition slice_from (i : Z) (s : text) : text := drop (slice_index i s) s.

(** [s.split(sep)] for a separator that is not empty: the pieces between the
    occurrences of [sep], found from left to right without overlap. (Python
    rejects the empty separator with ValueError; the generator only splits on
    its three-character delimiter.) *)
Equations? str_split (sep s : text) : list text by wf (length s) lt :=
  str_split [] s := [s];
  str_split (c :: sep) s with inspect (str_find (c :: sep) s) := {
    | exist _ (Some i) _ :=
        take i s :: str_split (c :: sep) (drop (i + length (c :: sep)) s)
    | exist _ None _ := [s] }.
Proof.
  destruct s as [|a s]; [done|]. rewrite length_drop. simpl. lia.
Qed.

(** [s.count(sub)] for a [sub] that is not empty: the number of occurrences
    met from left to right without overlap. *)
Equations? str_count (sub s : text) : nat by wf (length s) lt :=
  str_count [] s := S (length s);
  str_count (c :: sub) s with inspect (str_find (c :: sub) s) := {
    | exist _ (Some i) _ :=
        S (str_count (c :: sub) (drop (i + length (c :: sub)) s))
    | exist _ None _ := 0 }.
Proof.
  destruct s as [|a s]; [done|]. rewrite length_drop. simpl. lia.
Qed.

(** [sep.join(pieces)]. *)
Fixpoint str_join (sep : text) (pieces : list text) : text :=
  match pieces with
  | [] => []
  | [p] => p
  | p :: ps => p ++ sep ++ str_join sep ps
  end.

(** [s.replace(old, new)] for an [old] that is not empty: every occurrence of
    [old], from left to right without overlap, becomes [new]. *)
Definition str_replace (old new s : text) : text :=
  str_join new (str_split old s).

Definition str_lstrip (s : text) : text := drop_while is_space s.
Definition str_rstrip (s : text) : text := rev (drop_while is_space (rev s)).
Definition str_strip (s : text) : text := str_rstrip (str_lstrip s).

(** [s.title()]: a letter that follows a letter is lowered, any other letter
    is raised. The letters are the ASCII letters: on text of characters below
    128 this is [str.title]. *)
Fixpoint title_from (previous_is_cased : bool) (s : text) : text :=
  match s with
  | [] => []
  | c :: s' =>
      (if previous_is_cased then to_lower c else to_upper c)
        :: title_from (is_alpha c) s'
  end.
Definition str_title (s : text) : text := title_from false s.

(** [data.splitlines()] on bytes: lines end at LF, CR or CR LF, the line ends
    are dropped and a final line end opens no further line. *)
Fixpoint splitlines (s : text) : list text :=
  match s with
  | [] => []
  | c :: s' =>
      if bool_decide (c = LF) then [] :: splitlines s'
      else if bool_decide (c = CR) then
        [] :: match s' with
              | c' :: s'' => if bool_decide (c' = LF) then splitlines s'' else splitlines s'
              | [] => []
              end
      else match splitlines s' with
           | [] => [[c]]
           | l :: ls => (c :: l) :: ls
           end
  end.

(** Reading in text mode: universal newlines turn CR LF and CR into LF. *)
Fixpoint universal_newlines (s : text) : text :=
  match s with
  | [] => []
  | c :: s' =>
      if bool_decide (c = CR) then
        LF :: match s' with
              | c' :: s'' =>
                  if bool_decide (c' = LF) then universal_newlines s''
                  else universal_newlines s'
              | [] => []
              end
      else c :: universal_newlines s'
  end.

(** ** posixpath *)

Module os_path.

Definition is_sep (c : ascii) : bool := bool_decide (c = SLASH).
Definition not_sep (c : ascii) : bool := negb (is_sep c).

(** [basename(p)] is [p[i:]] for [i = p.rfind('/') + 1]: what follows the
    last separator. *)
Definition basename (p : text) : text := rev (take_while not_sep (rev p)).

(** [dirname(p)] is [p[:i]] with its trailing separators removed, unless it
    consists of separators only. *)
Definition dirname (p : text) : text :=
  let head := rev (drop_while not_sep (rev p)) in
  if forallb is_sep head then head else rev (drop_while is_sep (rev head)).

(** One turn of the loop of [join]. *)
Definition join_step (path b : text) : text :=
  if startswith b [SLASH] then b
  else if bool_decide (path = []) || endswith path [SLASH] then path ++ b
  else path ++ SLASH :: b.

(** [join(a, *p)]. *)
Definition join (a : text) (p : list text) : text := foldl join_step a p.

End os_path.

(** ** Exceptions and the process state *)

(** What a raise statement carries. The first three are of class Exception;
    SystemExit and KeyboardInterrupt derive from BaseException only, and an
    [except Exception] clause lets them pass. *)
Inductive exception : Type :=
  | IndexError                      (* list index out of range *)
  | FileNotFoundError (path : text) (* no such file or directory *)
  | Exception (message : text)      (* any other error of class Exception *)
  | SystemExit (code : text)        (* sys.exit, also from inside the example *)
  | KeyboardInterrupt.              (* the interrupt key *)

(** [isinstance(err, Exception)]. *)
Definition is_Exception (e : exception) : bool :=
  match e with
  | IndexError | FileNotFoundError _ | Exception _ => true
  | SystemExit _ | KeyboardInterrupt => false
  end.

(** [str(err)], as the except clause prints it. *)
Definition exception_str (e : exception) : text :=
  match e with
  | IndexError => txt "list index out of range"
  | FileNotFoundError p => txt "[Errno 2] No such file or directory: '" ++ p ++ txt "'"
  | Exception m => m
  | SystemExit code => code
  | KeyboardInterrupt => []
  end.

Inductive outcome (A : Type) : Type :=
  | Ok (a : A)
  | Raise (e : exception).
Arguments Ok {A} a.
Arguments Raise {A} e.

Record World : Type := mkWorld {
  files : gmap text text;   (* the regular files and their bytes *)
  dirs : gset text;         (* the directories *)
  sys_path : list text;     (* the module search path *)
  stdout : list text        (* the lines printed, oldest first *)
}.

(** A command runs in a world and leaves a world, also when it raises. *)
Definition Run (A : Type) : Type := World → outcome A * World.

#[global] Instance Run_ret : MRet Run := λ A a w, (Ok a, w).
#[global] Instance Run_bind : MBind Run := λ A B f m w,
  match m w with
  | (Ok a, w') => f a w'
  | (Raise e, w') => (Raise e, w')
  end.

Definition raise {A} (e : exception) : Run A := λ w, (Raise e, w).

Definition lift {A} (r : outcome A) : Run A := λ w, (r, w).

(** [try: body / except Exception as err: handler err / finally: final].
    The handler takes the exceptions of class Exception; any other stays
    pending while [final] runs and is raised again behind it. An exception
    raised by [final] replaces the result, also a pending exception. *)
Definition try_except_finally {A}
    (body : Run A) (handler : exception → Run A) (final : Run unit) : Run A :=
  λ w,
    let '(r, w1) := match body w with
                    | (Ok a, w') => (Ok a, w')
                    | (Raise e, w') =>
                        if is_Exception e then handler e w' else (Raise e, w')
                    end in
    match final w1 with
    | (Ok _, w2) => (r, w2)
    | (Raise e, w2) => (Raise e, w2)
    end.

Fixpoint for_each {A} (body : A → Run unit) (l : list A) : Run unit :=
  match l with
  | [] => mret tt
  | x :: l' => body x ;; for_each body l'
  end.

(** The four updates of the world. *)
Definition printed (line : text) (w : World) : World :=
  mkWorld (files w) (dirs w) (sys_path w) (stdout w ++ [line]).

Definition with_sys_path (p : list text) (w : World) : World :=
  mkWorld (files w) (dirs w) p (stdout w).

Definition with_file (path data : text) (w : World) : World :=
  mkWorld (<[path := data]> (files w)) (dirs w) (sys_path w) (stdout w).

(** [p] lies below the directory [d]. *)
Definition below (d p : text) : bool := startswith p (d ++ [SLASH]).

Definition without_tree (d : text) (w : World) : World :=
  mkWorld (filter (λ kv, ¬ below d kv.1) (files w))
          (filter (λ p, p ≠ d ∧ ¬ below d p) (dirs w))
          (sys_path w) (stdout w).

Definition print (line : text) : Run unit := λ w, (Ok tt, printed line w).

Definition get_sys_path : Run (list text) := λ w, (Ok (sys_path w), w).

Definition set_sys_path (p : list text) : Run unit := λ w, (Ok tt, with_sys_path p w).

(** [open(path, 'rb').read()]. *)
Definition read_bytes (path : text) : Run text := λ w,
  match files w !! path with
  | Some data => (Ok data, w)
  | None => (Raise (FileNotFoundError path), w)
  end.

(** [open(path).read()]: the bytes of the file with the line ends
    translated. Decoding is the identity, which is what every ASCII-compatible
    encoding does on bytes below 128; the properties that depend on the
    decoded characters assume a file of such bytes. *)
Definition read_text (path : text) : Run text :=
  data ← read_bytes path; mret (universal_newlines data).

(** [open(path, 'wb').write(data)]: the file is created or overwritten. *)
Definition write_bytes (path data : text) : Run unit := λ w, (Ok tt, with_file path data w).

Module shutil.

(** [rmtree(d)] with its default [ignore_errors=False]: the directory and
    all that lies below it are removed; a directory that is not there is an
    error. *)
Definition rmtree (d : text) : Run unit := λ w,
  if bool_decide (d ∈ dirs w) then (Ok tt, without_tree d w)
  else (Raise (FileNotFoundError d), w).

End shutil.

(** ** The text transforms *)

(** The delimiter of the docstring: three double quotes. *)
Definition DELIMITER : text := [DQUOTE; DQUOTE; DQUOTE].

(** The pragma that asks for a document, and the line clean_docstring
    removes: the pragma and its line feed. *)
Definition MARKER : text := txt "<< autodoc-me >>".
Definition MARKER_LINE : text := MARKER ++ [LF].

(** [l[i]] on a Python list, for an index that is not negative. *)
Definition list_index {A} (l : list A) (i : nat) : outcome A :=
  match l !! i with
  | Some x => Ok x
  | None => Raise IndexError
  end.

Definition extract_docstring (script_text : text) : outcome text :=
  list_index (str_split DELIMITER script_text) 1.

(** The pattern of clean_docstring at the head of [s]: a backquote, one or
    more identifier characters (as many as there are), a backquote. The result
    is the identifier and what follows the match. *)
Definition match_identifier (s : text) : option (text * text) :=
  match s with
  | c :: s1 =>
      if bool_decide (c = BACKQUOTE) then
        let identifier := take_while is_identifier_char s1 in
        match identifier, drop_while is_identifier_char s1 with
        | _ :: _, c' :: rest =>
            if bool_decide (c' = BACKQUOTE) then Some (identifier, rest) else None
        | _, _ => None
        end
      else None
  | [] => None
  end.

(** [re.search] for that pattern: the index of the leftmost match and its
    identifier. *)
Fixpoint re_search (s : text) : option (nat * text) :=
  match match_identifier s with
  | Some (identifier, _) => Some (0, identifier)
  | None =>
      match s with
      | [] => None
      | _ :: s' => prod_map S id <$> re_search s'
      end
  end.

(** [re.sub] for that pattern and the replacement that doubles the
    backquotes: matches are taken from left to right and do not overlap. *)
Equations? re_sub (s : text) : text by wf (length s) lt :=
  re_sub [] := [];
  re_sub (c :: s) with inspect (match_identifier (c :: s)) := {
    | exist _ (Some (identifier, rest)) _ :=
        [BACKQUOTE; BACKQUOTE] ++ identifier ++ [BACKQUOTE; BACKQUOTE] ++ re_sub rest
    | exist _ None _ := c :: re_sub s }.
Proof.
  assert (Hlen : ∀ p t, length (drop_while p t) ≤ length t).
  { intros p t. induction t as [|x t IH]; simpl; [lia|]. destruct (p x); simpl; lia. }
  specialize (Hlen is_identifier_char s). simpl in *.
  destruct (bool_decide (c = BACKQUOTE)); [|done].
  destruct (take_while _ _); [done|].
  destruct (drop_while _ _) as [|c' r]; [done|].
  destruct (bool_decide (c' = BACKQUOTE)); [|done].
  injection e as _ <-. simpl in *. lia.
Qed.

Definition clean_docstring (docstring : text) : text :=
  let docstring := str_strip (str_replace MARKER_LINE [] docstring) in
  re_sub docstring.

(** ** The templates *)

Definition lines (ls : list text) : text := concat ((λ l, l ++ [LF]) <$> ls).

Definition RULE (c : ascii) : text := replicate 79 c.

(** [SCREENSHOT_RST_TEMPLATE.format(name=name)]; the template opens with an
    empty line. *)
Definition SCREENSHOT_RST_TEMPLATE (name : text) : text :=
  lines [ [];
          txt "Screenshot";
          RULE (chr 45);
          [];
          txt ".. image:: images/" ++ name ].

(** [EXAMPLE_DOC_RST_TEMPLATE.format(title=.., name=.., path=..,
    docstring_rst=.., screenshot_rst=..)]. *)
Definition EXAMPLE_DOC_RST_TEMPLATE
    (title name path docstring_rst screenshot_rst : text) : text :=
  lines [ [];
          txt "..";
          txt "  NOTE: This RST file was generated by `make examples`.";
          txt "  Do not edit it directly.";
          txt "  See docs/source/examples/example_doc_generator.py";
          [];
          title ++ txt " Example";
          RULE (chr 61);
          [];
          docstring_rst;
          [];
          txt ".. TIP:: To see this example in action, download it from";
          txt " :download:`" ++ name ++ txt " <../../../" ++ path ++ txt ">`";
          txt " and run::";
          [];
          txt "   $ enaml-run " ++ name ++ txt ".enaml";
          [];
          screenshot_rst;
          txt "Example Enaml Code";
          RULE (chr 45);
          txt ".. literalinclude:: ../../../" ++ path;
          txt "    :language: enaml" ].

(** ** The names generate_example_doc derives from its arguments *)

Definition script_name (script_path : text) : text :=
  let script_name := os_path.basename script_path in
  slice_to (str_find_z [DOT] script_name) script_name.

Definition script_title (script_path : text) : text :=
  str_title (str_replace [UNDERSCORE] [SPACE] (script_name script_path)).

Definition script_image_name (script_path : text) : text :=
  txt "ex_" ++ script_name script_path ++ txt ".png".

Definition image_path (docs_path script_path : text) : text :=
  os_path.join docs_path [txt "images"; script_image_name script_path].

Definition rst_path (docs_path script_path : text) : text :=
  os_path.join docs_path [txt "ex_" ++ script_name script_path ++ txt ".rst"].

Definition relative_script_path (script_path : text) : text :=
  str_replace [BACKSLASH] [SLASH]
    (slice_from (str_find_z (txt "examples") script_path) script_path).

Definition enaml_cache_dir (script_path : text) : text :=
  os_path.join (os_path.dirname script_path) [txt "__enamlcache__"].

(** The document of an example, as generate_example_doc assembles it. *)
Definition example_doc_rst (script_path docstring : text) (snapshot_success : bool) : text :=
  let screenshot_rst :=
    if negb snapshot_success then []
    else SCREENSHOT_RST_TEMPLATE (script_image_name script_path) in
  EXAMPLE_DOC_RST_TEMPLATE (script_title script_path) (script_name script_path)
    (relative_script_path script_path) docstring screenshot_rst.

(** ** generate_example_doc and main *)

Section Generator.

(** The body of the try block, [mod = __import__(script_name)] followed by
    [save_snapshot_of_module(mod, image_path)], run under [enaml.imports()]:
    it may change the world at will (the image, the import cache, even
    [sys.path]) and may raise. *)
Variable snapshot : text → text → Run unit.

(** Lines 158 to 171: the guarded snapshot and the removal of the cache. *)
Definition try_snapshot (docs_path script_path : text) : Run bool :=
  try_except_finally
    (snapshot (script_name script_path) (image_path docs_path script_path);;
     mret true)
    (λ err,
       print (txt "Could not snapshot: " ++ script_name script_path);;
       print (txt "    " ++ exception_str err);;
       mret false)
    (shutil.rmtree (enaml_cache_dir script_path)).

Definition generate_example_doc (docs_path script_path : text) : Run unit :=
  print (txt "generating doc for " ++ script_name script_path);;
  (* Add the script to the Python Path *)
  old_python_path ← get_sys_path;
  set_sys_path (old_python_path ++ [os_path.dirname script_path]);;
  snapshot_success ← try_snapshot docs_path script_path;
  (* Restore Python path. *)
  set_sys_path old_python_path;;
  script_text ← read_text script_path;
  docstring ← lift (extract_docstring script_text);
  let docstring := clean_docstring docstring in
  write_bytes (rst_path docs_path script_path)
    (str_lstrip (example_doc_rst script_path docstring snapshot_success)).

(** The files of one directory that main looks into. *)
Definition candidates (white_list : list text) (dirname : text) (filenames : list text)
    : list text :=
  let files :=
    (λ f, os_path.join dirname [f]) <$> filter (λ f, endswith f (txt ".enaml")) filenames in
  match white_list with
  | [] => files
  | _ :: _ => filter (λ f, existsb (endswith f) white_list) files
  end.

(** [MARKER in data.splitlines()]. *)
Definition has_marker (data : text) : bool := bool_decide (MARKER ∈ splitlines data).

(** The body of the inner loop of main. *)
Definition visit (docs_path fname : text) : Run unit :=
  data ← read_bytes fname;
  if has_marker data then generate_example_doc docs_path fname else mret tt.

(** main, for the directory [docs_path] of the generator and the triples
    [(dirname, dirnames, filenames)] that [os.walk(base_path)] yields. An
    absent [--filenames] option ([None]) is the empty [white_list]. *)
Definition main (white_list : list text) (docs_path : text)
    (walk : list (text * list text * list text)) : Run unit :=
  for_each
    (λ '(dirname, dirnames, filenames),
       for_each (visit docs_path) (candidates white_list dirname filenames))
    walk.

End Generator.

(** * The vocabulary of the properties *)

(** ** Occurrences *)

(** [sub] occurs in [s] at index [i]. *)
Definition occurs_at (sub s : text) (i : nat) : Prop := sub `prefix_of` drop i s.

(** [i] is the index of the first occurrence of [sub] in [s]. *)
Definition first_occurrence (sub s : text) (i : nat) : Prop :=
  occurs_at sub s i ∧ ∀ j, j < i → ¬ occurs_at sub s j.

(** ** Backquoted tokens *)

(** [id] matches [[A-Za-z_]+] as a whole. *)
Definition is_identifier (id : text) : bool :=
  match id with
  | [] => false
  | _ :: _ => forallb is_identifier_char id
  end.

(** A token in single backquotes, and its form in double backquotes. *)
Definition single_backquoted (id : text) : text := BACKQUOTE :: id ++ [BACKQUOTE].
Definition double_backquoted (id : text) : text :=
  [BACKQUOTE; BACKQUOTE] ++ id ++ [BACKQUOTE; BACKQUOTE].

(** A text laid out as tokens: each segment is some text followed by a
    token, and [tail] closes the text. *)
Definition tokens_text (form : text → text) (segments : list (text * text)) (tail : text)
    : text :=
  concat ((λ seg, seg.1 ++ form seg.2) <$> segments) ++ tail.

(** The token of a segment is the leftmost match from the start of the
    segment on. *)
Definition leftmost_match (seg : text * text) : Prop :=
  re_search (seg.1 ++ [BACKQUOTE]) = None ∧ is_identifier seg.2 = true.

(** ** Lines *)




(** ** Names *)

(** The base name in the words of the specification: the path minus its
    directory and its extension, the extension being what starts at the last
    dot of the file name. *)
Definition spec_base_name (script_path : text) : text :=
  let file_name := os_path.basename script_path in
  let not_dot := λ c, negb (bool_decide (c = DOT)) in
  if bool_decide (DOT ∈ file_name)
  then rev (drop 1 (drop_while not_dot (rev file_name)))
  else file_name.

(** ** The worlds of a run of generate_example_doc *)

(** The world in which the snapshot is attempted: the progress line is
    printed and the directory of the script is on the search path. *)
Definition entering (script_path : text) (w : World) : World :=
  with_sys_path (sys_path w ++ [os_path.dirname script_path])
    (printed (txt "generating doc for " ++ script_name script_path) w).

(** The world after the except clause has reported [err]. *)
Definition reported (script_path : text) (err : exception) (w : World) : World :=
  printed (txt "    " ++ exception_str err)
    (printed (txt "Could not snapshot: " ++ script_name script_path) w).

(** The try statement up to its finally clause, and the world with which
    the removal of the cache starts: the flag, or the exception that the
    except clause let pass and that is pending. *)
Definition attempted (snapshot : text → text → Run unit)
    (docs_path script_path : text) (w : World) : outcome bool * World :=
  match snapshot (script_name script_path) (image_path docs_path script_path) w with
  | (Ok _, w') => (Ok true, w')
  | (Raise err, w') =>
      if is_Exception err then (Ok false, reported script_path err w')
      else (Raise err, w')
  end.

(** ** The candidates of a walk *)

Definition all_candidates (white_list : list text)
    (entries : list (text * list text * list text)) : list text :=
  concat ((λ '(dirname, dirnames, filenames),
             candidates white_list dirname filenames) <$> entries).

(** The candidates that hold the marker as a line in the world [w], in the
    order of the walk. This list is not part of the program: main reads each
    candidate when the walk comes to it; the properties of main relate its
    run to this list. *)
Definition marked (w : World) (fname : text) : bool :=
  match files w !! fname with
  | Some data => has_marker data
  | None => false
  end.

Definition discover (white_list : list text)
    (walk : list (text * list text * list text)) (w : World) : list text :=
  filter (λ f, marked w f) (all_candidates white_list walk).

(** [w] holds the same bytes as [w0] at every candidate of the walk. *)
Definition same_examples (white_list : list text)
    (walk : list (text * list text * list text)) (w0 w : World) : Prop :=
  ∀ q, q ∈ all_candidates white_list walk → files w !! q = files w0 !! q.

(** ** Plain text *)

(** Every character of [s] is below 128. On such text the decoding, the
    encoding and the case mapping of Python are those of the model. *)
Definition is_ascii (s : text) : bool := forallb (λ c, ord c <? 128) s.

(** ** Separators *)

(** The text with every backslash turned into a slash. *)
Definition slashed (s : text) : text :=
  (λ c, if bool_decide (c = BACKSLASH) then SLASH else c) <$> s.

(** * Sample runs *)

Definition sample_docs_path : text := txt "/repo/docs/source/examples".
Definition sample_script_path : text := txt "/repo/examples/widgets/push_button.enaml".
Definition second_script_path : text := txt "/repo/examples/widgets/slider.enaml".
Definition sample_cache_dir : text := txt "/repo/examples/widgets/__enamlcache__".

(** An example with a docstring and the pragma. *)
Definition sample_source : text :=
  lines [ txt "#-----";
          DELIMITER ++ txt " A `PushButton` demo.";
          [];
          MARKER;
          [];
          DELIMITER;
          txt "enamldef Main(Window): pass" ].

(** An example with the pragma and no docstring. *)
Definition sample_source_no_docstring : text :=
  lines [ txt "# A demo.";
          MARKER;
          txt "enamldef Main(Window): pass" ].

(** A capability that fails: a dependency of the example is missing. *)
Definition snapshot_fails : text → text → Run unit :=
  λ _ _, raise (Exception (txt "No module named matplotlib")).

(** A capability that ends the process: the example calls [sys.exit]. *)
Definition snapshot_exits : text → text → Run unit :=
  λ _ _, raise (SystemExit (txt "0")).

(** A capability that saves the image. *)
Definition snapshot_succeeds : text → text → Run unit :=
  λ _ image_path, write_bytes image_path (txt "PNG").

Definition sample_world (source : text) (directories : gset text) : World :=
  mkWorld {[ sample_script_path := source ]} directories [txt "/usr/lib/python3"] [].

(** The import cache of the example is there, left by the import. *)
Definition world_with_cache : World := sample_world sample_source {[ sample_cache_dir ]}.

(** The import failed before a cache was written. *)
Definition world_without_cache : World := sample_world sample_source ∅.

(** The cache is there and the example has no docstring. *)
Definition world_no_docstring : World :=
  sample_world sample_source_no_docstring {[ sample_cache_dir ]}.

(** Two examples in one directory: the first has no docstring, the second is
    in order. *)
Definition two_examples_world : World :=
  mkWorld {[ sample_script_path := sample_source_no_docstring;
             second_script_path := sample_source ]}
          {[ sample_cache_dir ]} [txt "/usr/lib/python3"] [].

Definition two_examples_walk : list (text * list text * list text) :=
  [ (txt "/repo/examples", [txt "widgets"], []);
    (txt "/repo/examples/widgets", [], [txt "push_button.enaml"; txt "slider.enaml"]) ].

(** Three examples, two of which hold the marker line; the third only
    mentions the marker inside a line. *)
Definition three_examples_world : World :=
  mkWorld {[ sample_script_path := sample_source;
             second_script_path := sample_source;
             txt "/repo/examples/widgets/notebook.enaml"
               := lines [ txt "# see << autodoc-me >> in the other examples";
                          txt "enamldef Main(Window): pass" ] ]}
          ∅ [] [].

Definition three_examples_walk : list (text * list text * list text) :=
  [ (txt "/repo/examples", [txt "widgets"], [txt "README.rst"]);
    (txt "/repo/examples/widgets", [],
     [txt "push_button.enaml"; txt "slider.enaml"; txt "notebook.enaml"]) ].

(** A capability that empties the search path and returns. *)
Definition snapshot_clears_path : text → text → Run unit :=
  λ _ _, set_sys_path [].

(** The example file is listed but is not there. *)
Definition world_missing_example : World :=
  mkWorld ∅ {[ sample_cache_dir ]} [txt "/usr/lib/python3"] [].

(** The cache directory holds the compiled example. *)
Definition sample_cache_file : text :=
  txt "/repo/examples/widgets/__enamlcache__/push_button-enaml-py3-cv23.enamlc".

Definition world_with_cache_file : World :=
  mkWorld {[ sample_script_path := sample_source; sample_cache_file := txt "cached" ]}
          {[ sample_cache_dir ]} [txt "/usr/lib/python3"] [].

(** A capability that behaves as an import that goes well: the cache
    directory appears beside the example, found through the last entry of the
    search path, and the image is saved. *)
Definition snapshot_imports : text → text → Run unit :=
  λ _ image_path w,
    (Ok tt,
     mkWorld (<[image_path := txt "PNG"]> (files w))
             ({[ os_path.join (default [] (last (sys_path w))) [txt "__enamlcache__"] ]}
                ∪ dirs w)
             (sys_path w) (stdout w)).

(** * Properties *)

(** ** Occurrences *)

Lemma startswith_true s p : startswith s p = true ↔ p `prefix_of` s.
Proof. unfold startswith. apply bool_decide_eq_true. Qed.

Lemma startswith_false s p : startswith s p = false ↔ ¬ p `prefix_of` s.
Proof. unfold startswith. apply bool_decide_eq_false. Qed.

Lemma str_find_Some sub s i :
  str_find sub s = Some i ↔ first_occurrence sub s i.
Proof.
  revert i. induction s as [|c s IH]; intros i; simpl.
  - destruct (startswith [] sub) eqn:E.
    + apply startswith_true in E. split.
      * intros [= <-]. split; [done | lia].
      * intros [_ Hmin]. destruct i as [|i]; [done|].
        destruct (Hmin 0); [lia | done].
    + apply startswith_false in E. split; [done|].
      intros [Hocc _]. unfold occurs_at in Hocc. by rewrite drop_nil in Hocc.
  - destruct (startswith (c :: s) sub) eqn:E.
    + apply startswith_true in E. split.
      * intros [= <-]. split; [done | lia].
      * intros [_ Hmin]. destruct i as [|i]; [done|].
        destruct (Hmin 0); [lia | done].
    + apply startswith_false in E. split.
      * destruct (str_find sub s) as [k|] eqn:F; [|done]. intros [= <-].
        destruct (proj1 (IH k) eq_refl) as [Hocc Hmin]. split; [done|].
        intros [|j] Hj; [done|]. apply Hmin. lia.
      * intros [Hocc Hmin]. destruct i as [|i]; [done|].
        assert (str_find sub s = Some i) as ->; [|done].
        apply IH. split; [done|]. intros j Hj. apply (Hmin (S j)). lia.
Qed.

Lemma str_find_None sub s :
  str_find sub s = None ↔ ∀ j, ¬ occurs_at sub s j.
Proof.
  split.
  - induction s as [|c s IH]; simpl.
    + destruct (startswith [] sub) eqn:E; [done|]. apply startswith_false in E.
      intros _ j. unfold occurs_at. by rewrite drop_nil.
    + destruct (startswith (c :: s) sub) eqn:E; [done|]. apply startswith_false in E.
      destruct (str_find sub s); [done|]. intros _ [|j]; [done|]. by apply IH.
  - intros Hno. destruct (str_find sub s) as [i|] eqn:F; [|done].
    apply str_find_Some in F as [Hocc _]. by destruct (Hno i).
Qed.

Lemma occurs_at_bound sub s i : sub ≠ [] → occurs_at sub s i → i + length sub ≤ length s.
Proof.
  intros Hne [k Hk]. apply (f_equal length) in Hk.
  rewrite length_drop, length_app in Hk.
  destruct sub; [done|]. simpl in *. lia.
Qed.

Lemma occurs_at_split sub s i :
  occurs_at sub s i → s = take i s ++ sub ++ drop (i + length sub) s.
Proof.
  intros [k Hk]. rewrite <- (take_drop i s) at 1. f_equal.
  rewrite <- drop_drop, Hk. by rewrite drop_app_length.
Qed.

(** ** Splitting and counting *)

Lemma str_split_found sep s i :
  sep ≠ [] → str_find sep s = Some i →
  str_split sep s = take i s :: str_split sep (drop (i + length sep) s).
Proof.
  intros Hne Hfind. destruct sep as [|c sep]; [done|].
  rewrite str_split_equation_2.
  destruct (inspect (str_find (c :: sep) s)) as [[j|] Hj]; simpl; congruence.
Qed.

Lemma str_split_not_found sep s : str_find sep s = None → str_split sep s = [s].
Proof.
  intros Hfind. destruct sep as [|c sep]; [by rewrite str_split_equation_1|].
  rewrite str_split_equation_2.
  destruct (inspect (str_find (c :: sep) s)) as [[j|] Hj]; simpl; congruence.
Qed.

Lemma str_count_found sub s i :
  sub ≠ [] → str_find sub s = Some i →
  str_count sub s = S (str_count sub (drop (i + length sub) s)).
Proof.
  intros Hne Hfind. destruct sub as [|c sub]; [done|].
  rewrite str_count_equation_2.
  destruct (inspect (str_find (c :: sub) s)) as [[j|] Hj]; simpl; congruence.
Qed.

Lemma str_count_not_found sub s :
  sub ≠ [] → str_find sub s = None → str_count sub s = 0.
Proof.
  intros Hne Hfind. destruct sub as [|c sub]; [done|].
  rewrite str_count_equation_2.
  destruct (inspect (str_find (c :: sub) s)) as [[j|] Hj]; simpl; congruence.
Qed.

Lemma str_count_zero sub s : sub ≠ [] → str_count sub s = 0 ↔ str_find sub s = None.
Proof.
  intros Hne. split; [|by apply str_count_not_found].
  destruct (str_find sub s) as [i|] eqn:F; [|done].
  by rewrite (str_count_found _ _ i).
Qed.

Lemma str_split_head sep s : ∃ p ps, str_split sep s = p :: ps.
Proof.
  destruct sep as [|c sep]; [rewrite str_split_equation_1; eauto|].
  destruct (str_find (c :: sep) s) as [i|] eqn:F.
  - rewrite (str_split_found _ _ i); eauto.
  - rewrite str_split_not_found; eauto.
Qed.

(** The pieces are one more than the occurrences counted. *)
Lemma str_split_length sep s :
  sep ≠ [] → length (str_split sep s) = S (str_count sep s).
Proof.
  intros Hne. induction s as [s IH] using (induction_ltof1 _ length).
  unfold ltof in IH.
  destruct (str_find sep s) as [i|] eqn:F.
  - rewrite (str_split_found _ _ i), (str_count_found _ _ i) by done. simpl.
    rewrite IH; [done|].
    apply str_find_Some in F as [Hocc _]. apply occurs_at_bound in Hocc; [|done].
    rewrite length_drop. destruct sep; [done|]. simpl in *. lia.
  - by rewrite str_split_not_found, str_count_not_found.
Qed.

(** ** extract_docstring *)

Lemma DELIMITER_nonempty : DELIMITER ≠ [].
Proof. done. Qed.

Lemma split_DELIMITER_found s i :
  str_find DELIMITER s = Some i →
  str_split DELIMITER s = take i s :: str_split DELIMITER (drop (i + 3) s).
Proof. apply str_split_found, DELIMITER_nonempty. Qed.

Lemma count_DELIMITER_found s i :
  str_find DELIMITER s = Some i →
  str_count DELIMITER s = S (str_count DELIMITER (drop (i + 3) s)).
Proof. apply str_count_found, DELIMITER_nonempty. Qed.

Lemma count_DELIMITER_not_found s :
  str_find DELIMITER s = None → str_count DELIMITER s = 0.
Proof. apply str_count_not_found, DELIMITER_nonempty. Qed.

(** With no delimiter in the text the split has one piece, and the index 1
    is out of range. *)
Lemma extract_docstring_no_delimiter s :
  str_find DELIMITER s = None → extract_docstring s = Raise IndexError.
Proof.
  intros F. unfold extract_docstring. by rewrite str_split_not_found.
Qed.

(** With a delimiter in the text, what follows its first occurrence is split
    in turn, and the first piece of that is the result. *)
Lemma extract_docstring_delimiter s i :
  str_find DELIMITER s = Some i →
  ∃ p ps, str_split DELIMITER (drop (i + 3) s) = p :: ps ∧ extract_docstring s = Ok p.
Proof.
  intros F. unfold extract_docstring.
  rewrite (split_DELIMITER_found s i) by done.
  destruct (str_split_head DELIMITER (drop (i + 3) s)) as (p & ps & Hp).
  exists p, ps. by rewrite Hp.
Qed.

(** C1, as amended: extract_docstring fails (with the IndexError of the list
    index, the error the specification calls MalformedSourceError) exactly on
    the source texts that hold no triple-quote delimiter at all. A text with a
    single delimiter is not refused. *)
Theorem extract_docstring_fails_iff_no_delimiter (script_text : text) :
  extract_docstring script_text = Raise IndexError ↔ str_count DELIMITER script_text = 0.
Proof.
  rewrite str_count_zero by apply DELIMITER_nonempty. split.
  - destruct (str_find DELIMITER script_text) as [i|] eqn:F; [|done].
    destruct (extract_docstring_delimiter _ _ F) as (p & ps & _ & ->). done.
  - apply extract_docstring_no_delimiter.
Qed.

(** C1 fails as stated: a text with one delimiter, hence fewer than two, is
    not refused; the text after the delimiter comes back. *)
Lemma extract_docstring_single_delimiter :
  str_count DELIMITER (txt "x = " ++ DELIMITER ++ txt "abc") < 2
  ∧ extract_docstring (txt "x = " ++ DELIMITER ++ txt "abc") = Ok (txt "abc").
Proof. split; [vm_compute; lia | reflexivity]. Qed.

(** With a count of two or more, the first delimiter is found, and a second
    one behind it. *)
Lemma two_delimiters_found s :
  2 ≤ str_count DELIMITER s →
  ∃ i j, str_find DELIMITER s = Some i ∧ str_find DELIMITER (drop (i + 3) s) = Some j.
Proof.
  intros Hcount.
  destruct (str_find DELIMITER s) as [i|] eqn:F; last first.
  { rewrite count_DELIMITER_not_found in Hcount by done. lia. }
  rewrite (count_DELIMITER_found s i) in Hcount by done.
  destruct (str_find DELIMITER (drop (i + 3) s)) as [j|] eqn:G; last first.
  { rewrite count_DELIMITER_not_found in Hcount by done. lia. }
  by exists i, j.
Qed.

Lemma first_occurrence_split s i :
  first_occurrence DELIMITER s i →
  s = take i s ++ DELIMITER ++ drop (i + 3) s ∧ length (take i s) = i.
Proof.
  intros [Hi _].
  pose proof (occurs_at_bound _ _ _ DELIMITER_nonempty Hi) as Bi.
  change (length DELIMITER) with 3 in Bi. split.
  - by apply occurs_at_split in Hi.
  - rewrite length_take. lia.
Qed.

(** C7: when the text holds at least two delimiters, it reads
    [before ++ DELIMITER ++ doc ++ DELIMITER ++ after], where the first
    delimiter shown is the first occurrence in the text and the second is the
    first occurrence after it, and extract_docstring returns [doc]. *)
Theorem extract_docstring_between (script_text : text) :
  2 ≤ str_count DELIMITER script_text →
  ∃ before doc after,
    script_text = before ++ DELIMITER ++ doc ++ DELIMITER ++ after
    ∧ first_occurrence DELIMITER script_text (length before)
    ∧ first_occurrence DELIMITER (doc ++ DELIMITER ++ after) (length doc)
    ∧ extract_docstring script_text = Ok doc.
Proof.
  intros (i & j & F & G)%two_delimiters_found.
  set (rest := drop (i + 3) script_text) in *.
  pose proof F as Hi. pose proof G as Hj.
  apply str_find_Some in Hi. apply str_find_Some in Hj.
  destruct (first_occurrence_split _ _ Hi) as [Hs Hlen_i].
  destruct (first_occurrence_split _ _ Hj) as [Hr Hlen_j].
  fold rest in Hs.
  exists (take i script_text), (take j rest), (drop (j + 3) rest).
  rewrite <- Hr, <- Hs, Hlen_i, Hlen_j.
  repeat split; try apply Hi; try apply Hj; try done.
  unfold extract_docstring.
  rewrite (split_DELIMITER_found script_text i) by done. fold rest.
  by rewrite (split_DELIMITER_found rest j) by done.
Qed.

(** A source with a docstring between its two delimiters. *)
Lemma extract_docstring_between_witness :
  2 ≤ str_count DELIMITER (DELIMITER ++ txt " Doc. " ++ DELIMITER ++ txt "enamldef Main(Window): pass")
  ∧ ∃ before doc after,
      DELIMITER ++ txt " Doc. " ++ DELIMITER ++ txt "enamldef Main(Window): pass"
        = before ++ DELIMITER ++ doc ++ DELIMITER ++ after
      ∧ first_occurrence DELIMITER
          (DELIMITER ++ txt " Doc. " ++ DELIMITER ++ txt "enamldef Main(Window): pass")
          (length before)
      ∧ first_occurrence DELIMITER (doc ++ DELIMITER ++ after) (length doc)
      ∧ extract_docstring
          (DELIMITER ++ txt " Doc. " ++ DELIMITER ++ txt "enamldef Main(Window): pass") = Ok doc.
Proof.
  assert (H : 2 ≤ str_count DELIMITER
                (DELIMITER ++ txt " Doc. " ++ DELIMITER ++ txt "enamldef Main(Window): pass")).
  { vm_compute. lia. }
  split; [exact H | exact (extract_docstring_between _ H)].
Defined.

(** ** The regular expression of clean_docstring *)

Lemma take_while_app p t u :
  take_while p (t ++ u) = if forallb p t then t ++ take_while p u else take_while p t.
Proof.
  induction t as [|c t IH]; simpl; [done|].
  destruct (p c); simpl; [|done]. rewrite IH. by destruct (forallb p t).
Qed.

Lemma drop_while_app p t u :
  drop_while p (t ++ u) = if forallb p t then drop_while p u else drop_while p t ++ u.
Proof.
  induction t as [|c t IH]; simpl; [done|].
  destruct (p c); simpl; [|done]. by rewrite IH.
Qed.

Lemma take_drop_while p s : take_while p s ++ drop_while p s = s.
Proof. induction s as [|c s IH]; simpl; [done|]. destruct (p c); simpl; congruence. Qed.

Lemma take_while_forallb p s : forallb p (take_while p s) = true.
Proof. induction s as [|c s IH]; simpl; [done|]. destruct (p c) eqn:E; simpl; [|done]. by rewrite E. Qed.

Lemma drop_while_not_all p t :
  forallb p t = false → ∃ c r, drop_while p t = c :: r ∧ p c = false.
Proof.
  induction t as [|c t IH]; simpl; [done|].
  destruct (p c) eqn:E; simpl; [done|]. intros _. by exists c, t.
Qed.

Lemma BACKQUOTE_not_identifier_char : is_identifier_char BACKQUOTE = false.
Proof. reflexivity. Qed.

Lemma match_identifier_backquote s :
  match_identifier (BACKQUOTE :: s)
  = match take_while is_identifier_char s, drop_while is_identifier_char s with
    | _ :: _, c' :: rest =>
        if bool_decide (c' = BACKQUOTE)
        then Some (take_while is_identifier_char s, rest) else None
    | _, _ => None
    end.
Proof. reflexivity. Qed.

Lemma match_identifier_other c s : c ≠ BACKQUOTE → match_identifier (c :: s) = None.
Proof. intros Hc. unfold match_identifier. by rewrite bool_decide_eq_false_2. Qed.

Lemma match_identifier_Some s id rest :
  match_identifier s = Some (id, rest)
  ↔ s = BACKQUOTE :: id ++ BACKQUOTE :: rest ∧ is_identifier id = true.
Proof.
  split.
  - destruct s as [|c s]; [done|].
    destruct (decide (c = BACKQUOTE)) as [->|Hc]; [|by rewrite match_identifier_other].
    rewrite match_identifier_backquote.
    pose proof (take_drop_while is_identifier_char s) as Hs.
    pose proof (take_while_forallb is_identifier_char s) as Hall.
    destruct (take_while is_identifier_char s) as [|a t] eqn:Ht; [done|].
    destruct (drop_while is_identifier_char s) as [|c' r]; [done|].
    case_bool_decide as Hc'; [|done]. subst c'. intros [= <- <-].
    by rewrite <- Hs.
  - intros [-> Hid]. rewrite match_identifier_backquote.
    assert (Hall : forallb is_identifier_char id = true) by by destruct id.
    rewrite take_while_app, drop_while_app, Hall.
    cbn [take_while drop_while]. rewrite BACKQUOTE_not_identifier_char, app_nil_r.
    destruct id; [done|]. by rewrite bool_decide_eq_true_2.
Qed.

(** Whether the pattern matches at the head of a text is settled once its
    second backquote has been read. *)
Lemma match_identifier_app t u id rest :
  match_identifier (BACKQUOTE :: t ++ BACKQUOTE :: u) = Some (id, rest) →
  ∃ rest0, match_identifier (BACKQUOTE :: t ++ [BACKQUOTE]) = Some (id, rest0).
Proof.
  rewrite !match_identifier_backquote, !take_while_app, !drop_while_app.
  destruct (forallb is_identifier_char t) eqn:Hall.
  - cbn [take_while drop_while].
    rewrite BACKQUOTE_not_identifier_char, !app_nil_r.
    destruct t; [done|]. rewrite bool_decide_eq_true_2 by done.
    intros [= <- <-]. eauto.
  - destruct (drop_while_not_all _ _ Hall) as (c & r & -> & _).
    rewrite <- !app_comm_cons.
    destruct (take_while is_identifier_char t); [done|].
    case_bool_decide; [|done]. intros [= <- <-]. eauto.
Qed.

Lemma re_sub_match c s id rest :
  match_identifier (c :: s) = Some (id, rest) →
  re_sub (c :: s) = double_backquoted id ++ re_sub rest.
Proof.
  intros Hm. rewrite re_sub_equation_2.
  destruct (inspect (match_identifier (c :: s))) as [[[id' rest']|] Hj];
    simpl; [|congruence].
  assert (id' = id ∧ rest' = rest) as [-> ->] by (split; congruence).
  unfold double_backquoted. by rewrite <- !app_assoc.
Qed.

Lemma re_sub_no_match c s :
  match_identifier (c :: s) = None → re_sub (c :: s) = c :: re_sub s.
Proof.
  intros Hm. rewrite re_sub_equation_2.
  destruct (inspect (match_identifier (c :: s))) as [[[id' rest']|] Hj];
    simpl; congruence.
Qed.

Lemma re_search_cons_None c s :
  re_search (c :: s) = None ↔ match_identifier (c :: s) = None ∧ re_search s = None.
Proof.
  cbn [re_search]. destruct (match_identifier (c :: s)) as [[id rest]|].
  - by split; [|intros [? _]].
  - destruct (re_search s); by split; [|intros [_ ?]].
Qed.

(** Where [re.search] finds nothing, [re.sub] changes nothing. *)
Lemma re_sub_no_occurrence s : re_search s = None → re_sub s = s.
Proof.
  induction s as [|c s IH]; [by rewrite re_sub_equation_1|].
  intros [Hm Hs]%re_search_cons_None. rewrite re_sub_no_match by done.
  by rewrite IH.
Qed.

Lemma single_backquoted_app id after :
  single_backquoted id ++ after = BACKQUOTE :: id ++ BACKQUOTE :: after.
Proof. unfold single_backquoted. simpl. by rewrite <- app_assoc. Qed.

(** The leftmost token that matches is doubled, what stands before it is kept
    and the substitution goes on behind it. *)
Lemma re_sub_first_token before id after :
  re_search (before ++ [BACKQUOTE]) = None → is_identifier id = true →
  re_sub (before ++ single_backquoted id ++ after)
  = before ++ double_backquoted id ++ re_sub after.
Proof.
  intros Hfree Hid. induction before as [|c before IH].
  - rewrite !app_nil_l, single_backquoted_app.
    apply re_sub_match, match_identifier_Some. done.
  - rewrite <- !app_comm_cons in *. apply re_search_cons_None in Hfree as [Hm Hfree].
    rewrite re_sub_no_match; [by rewrite IH|].
    destruct (decide (c = BACKQUOTE)) as [->|Hc]; [|by apply match_identifier_other].
    destruct (match_identifier (BACKQUOTE :: before ++ single_backquoted id ++ after))
      as [[id' rest']|] eqn:E; [|done].
    rewrite single_backquoted_app in E.
    apply match_identifier_app in E as [rest0 E]. congruence.
Qed.

Lemma re_search_app_l a s : re_search (a ++ s) = None → re_search s = None.
Proof.
  induction a as [|c a IH]; [done|].
  rewrite <- app_comm_cons. intros [_ H]%re_search_cons_None. by apply IH.
Qed.

Lemma re_search_app_r s b : re_search (s ++ b) = None → re_search s = None.
Proof.
  induction s as [|c s IH]; [done|].
  rewrite <- app_comm_cons. intros [Hm Hs]%re_search_cons_None.
  apply re_search_cons_None. split; [|by apply IH].
  destruct (match_identifier (c :: s)) as [[id rest]|] eqn:E; [|done].
  apply match_identifier_Some in E as [E Hid].
  assert (match_identifier (c :: s ++ b) = Some (id, rest ++ b)); [|congruence].
  apply match_identifier_Some. split; [|done].
  by rewrite app_comm_cons, E, <- !app_comm_cons, <- app_assoc, <- app_comm_cons.
Qed.

(** A token in single backquotes that is no identifier and holds no backquote
    is no occurrence of the pattern, and holds none. *)
Lemma re_search_other_token t :
  BACKQUOTE ∉ t → is_identifier t = false → re_search (single_backquoted t) = None.
Proof.
  intros Hfree Hid. unfold single_backquoted. apply re_search_cons_None. split.
  - destruct (match_identifier (BACKQUOTE :: t ++ [BACKQUOTE])) as [[id rest]|] eqn:E; [|done].
    apply match_identifier_Some in E as [E Hid']. injection E as E.
    assert (forallb is_identifier_char id = true) as Hall by by destruct id.
    assert (BACKQUOTE ∉ id) as Hfree'.
    { intros Hin. rewrite forallb_forall in Hall.
      apply list_elem_of_In, Hall in Hin. by rewrite BACKQUOTE_not_identifier_char in Hin. }
    assert (t = id); [|congruence].
    clear Hid Hid' Hall. revert id E Hfree'.
    induction t as [|c t IH]; intros [|d id] E Hfree'; simplify_eq/=; try done.
    + destruct Hfree'. left.
    + destruct Hfree. left.
    + f_equal. apply IH; [|done|]; set_solver.
  - clear Hid. induction t as [|c t IH]; [done|].
    rewrite <- app_comm_cons. apply re_search_cons_None. split.
    + apply match_identifier_other. set_solver.
    + apply IH. set_solver.
Qed.

(** ** Stripping *)

Lemma drop_while_idem p s : drop_while p (drop_while p s) = drop_while p s.
Proof.
  induction s as [|c s IH]; simpl; [done|].
  destruct (p c) eqn:E; [done|]. simpl. by rewrite E.
Qed.

Lemma drop_while_snoc p l c :
  p c = false → ∃ l', drop_while p (l ++ [c]) = l' ++ [c].
Proof.
  intros Hc. induction l as [|d l IH]; simpl.
  - rewrite Hc. by exists [].
  - destruct (p d); [done|]. by exists (d :: l).
Qed.

Lemma str_lstrip_idem s : str_lstrip (str_lstrip s) = str_lstrip s.
Proof. apply drop_while_idem. Qed.

Lemma str_rstrip_idem s : str_rstrip (str_rstrip s) = str_rstrip s.
Proof. unfold str_rstrip. by rewrite rev_involutive, drop_while_idem. Qed.

Lemma str_lstrip_rstrip s : str_lstrip s = s → str_lstrip (str_rstrip s) = str_rstrip s.
Proof.
  unfold str_lstrip, str_rstrip. destruct s as [|c s]; [done|]. simpl.
  destruct (is_space c) eqn:Hc.
  - intros H. apply (f_equal length) in H.
    pose proof (take_drop_while is_space s) as H'. apply (f_equal length) in H'.
    rewrite length_app in H'. simpl in H. lia.
  - intros _. destruct (drop_while_snoc is_space (rev s) c Hc) as [l' ->].
    rewrite rev_app_distr. simpl. by rewrite Hc.
Qed.

Lemma str_strip_idem s : str_strip (str_strip s) = str_strip s.
Proof.
  unfold str_strip.
  rewrite (str_lstrip_rstrip (str_lstrip s)) by apply str_lstrip_idem.
  apply str_rstrip_idem.
Qed.

(** What is stripped stands at the two ends. *)
Lemma str_strip_infix s : ∃ a b, s = a ++ str_strip s ++ b.
Proof.
  exists (take_while is_space s), (rev (take_while is_space (rev (str_lstrip s)))).
  unfold str_strip, str_rstrip.
  rewrite <- rev_app_distr, take_drop_while, rev_involutive.
  unfold str_lstrip. by rewrite take_drop_while.
Qed.

Lemma str_find_None_infix sub a s b :
  str_find sub (a ++ s ++ b) = None → str_find sub s = None.
Proof.
  rewrite !str_find_None. intros Hno j [k Hk]. apply (Hno (length a + j)).
  exists (k ++ drop (j - length s) b). unfold occurs_at.
  rewrite drop_app_add', drop_app, Hk by done. by rewrite <- app_assoc.
Qed.

Lemma str_replace_not_found old new s :
  str_find old s = None → str_replace old new s = s.
Proof. intros H. unfold str_replace. by rewrite str_split_not_found. Qed.

(** ** clean_docstring *)

Lemma clean_docstring_plain x :
  str_find MARKER_LINE x = None → re_search x = None →
  clean_docstring x = str_strip x.
Proof.
  intros Hm Hp. unfold clean_docstring.
  rewrite str_replace_not_found by done.
  destruct (str_strip_infix x) as (a & b & Hx).
  apply re_sub_no_occurrence. rewrite Hx in Hp.
  by apply re_search_app_l, re_search_app_r in Hp.
Qed.

(** C9: on a docstring in which neither the marker line (the marker with its
    line feed, the text clean_docstring removes) nor a match of the backquote
    pattern occurs, cleaning twice is cleaning once. *)
Theorem clean_docstring_idempotent (x : text) :
  str_find MARKER_LINE x = None → re_search x = None →
  clean_docstring (clean_docstring x) = clean_docstring x.
Proof.
  intros Hm Hp. rewrite (clean_docstring_plain x) by done.
  destruct (str_strip_infix x) as (a & b & Hx).
  rewrite clean_docstring_plain.
  - apply str_strip_idem.
  - rewrite Hx in Hm. by apply str_find_None_infix in Hm.
  - rewrite Hx in Hp. by apply re_search_app_l, re_search_app_r in Hp.
Qed.

(** A docstring with blanks at both ends and a token that is no identifier. *)
Lemma clean_docstring_idempotent_witness :
  str_find MARKER_LINE (txt "  A plain `foo-bar` docstring.  ") = None
  ∧ re_search (txt "  A plain `foo-bar` docstring.  ") = None
  ∧ clean_docstring (clean_docstring (txt "  A plain `foo-bar` docstring.  "))
    = clean_docstring (txt "  A plain `foo-bar` docstring.  ").
Proof.
  split; [reflexivity|]. split; [reflexivity|].
  apply (clean_docstring_idempotent (txt "  A plain `foo-bar` docstring.  ")); reflexivity.
Defined.

Lemma re_sub_tokens segments tail :
  Forall leftmost_match segments → re_search tail = None →
  re_sub (tokens_text single_backquoted segments tail)
  = tokens_text double_backquoted segments tail.
Proof.
  intros Hsegs Htail. unfold tokens_text.
  induction Hsegs as [|[before id] segments [Hfree Hid] _ IH].
  - by apply re_sub_no_occurrence.
  - rewrite !fmap_cons. cbn [concat fst snd] in *.
    rewrite <- !app_assoc, re_sub_first_token by done. by rewrite IH.
Qed.

(** C8: lay the docstring, once the marker line is removed and the ends are
    stripped, out as the matches of the pattern met from left to right, each
    with the text that stands before it, and a tail that holds no match.
    clean_docstring doubles the backquotes of every one of these tokens and
    keeps all the rest as it is, tokens that are no identifiers included. *)
Theorem clean_docstring_backquotes
    (docstring : text) (segments : list (text * text)) (tail : text) :
  str_strip (str_replace MARKER_LINE [] docstring)
    = tokens_text single_backquoted segments tail →
  Forall leftmost_match segments →
  re_search tail = None →
  clean_docstring docstring = tokens_text double_backquoted segments tail.
Proof.
  intros Hx Hsegs Htail. unfold clean_docstring.
  rewrite Hx. by apply re_sub_tokens.
Qed.

(** The two examples of the specification, through the theorem. *)
Lemma clean_docstring_backquotes_witness :
  clean_docstring (txt "`foo_bar` is good") = txt "``foo_bar`` is good"
  ∧ clean_docstring (txt "`foo-bar`") = txt "`foo-bar`".
Proof.
  split.
  - apply (clean_docstring_backquotes (txt "`foo_bar` is good")
             [([], txt "foo_bar")] (txt " is good")).
    + reflexivity.
    + repeat constructor.
    + reflexivity.
  - apply (clean_docstring_backquotes (txt "`foo-bar`") [] (txt "`foo-bar`")).
    + reflexivity.
    + constructor.
    + reflexivity.
Defined.

(** ** generate_example_doc *)

Section GeneratorProperties.

Variable snapshot : text → text → Run unit.

Lemma try_snapshot_unfold docs_path script_path w :
  try_snapshot snapshot docs_path script_path w
  = let '(tried, w1) := attempted snapshot docs_path script_path w in
    if bool_decide (enaml_cache_dir script_path ∈ dirs w1)
    then (tried, without_tree (enaml_cache_dir script_path) w1)
    else (Raise (FileNotFoundError (enaml_cache_dir script_path)), w1).
Proof.
  unfold try_snapshot, try_except_finally, attempted, shutil.rmtree, reported, print.
  unfold mbind, mret, Run_bind, Run_ret.
  destruct (snapshot _ _ w) as [[[]|e] w']; [|destruct (is_Exception e)];
    simpl; by case_bool_decide.
Qed.

Lemma generate_example_doc_unfold docs_path script_path w :
  generate_example_doc snapshot docs_path script_path w
  = match try_snapshot snapshot docs_path script_path (entering script_path w) with
    | (Raise e, w1) => (Raise e, w1)
    | (Ok ok, w1) =>
        let w2 := with_sys_path (sys_path w) w1 in
        match files w1 !! script_path with
        | None => (Raise (FileNotFoundError script_path), w2)
        | Some data =>
            match extract_docstring (universal_newlines data) with
            | Raise e => (Raise e, w2)
            | Ok docstring =>
                (Ok tt,
                 with_file (rst_path docs_path script_path)
                   (str_lstrip
                      (example_doc_rst script_path (clean_docstring docstring) ok))
                   w2)
            end
        end
    end.
Proof.
  unfold generate_example_doc, entering.
  unfold read_text, print, get_sys_path, set_sys_path, read_bytes, write_bytes, lift.
  unfold mbind, mret, Run_bind, Run_ret.
  cbn [sys_path printed with_sys_path].
  destruct (try_snapshot _ _ _ _) as [[ok|e] w1]; [|done].
  cbn [files with_sys_path].
  destruct (files w1 !! script_path) as [data|]; [|done].
  by destruct (extract_docstring _).
Qed.

(** The removal of the cache raises when the directory is not there, and the
    error leaves generate_example_doc at once, in the place of whatever the
    try statement had come to: the search path keeps the directory of the
    script and no document is written. *)
Lemma generate_example_doc_cache_absent docs_path script_path w tried w1 :
  attempted snapshot docs_path script_path (entering script_path w) = (tried, w1) →
  enaml_cache_dir script_path ∉ dirs w1 →
  generate_example_doc snapshot docs_path script_path w
  = (Raise (FileNotFoundError (enaml_cache_dir script_path)), w1).
Proof.
  intros Ha Hd. rewrite generate_example_doc_unfold, try_snapshot_unfold, Ha.
  by rewrite bool_decide_eq_false_2.
Qed.

(** When the cache is there and no exception is pending, the try statement
    is left in the normal way, whether the snapshot was taken or not, and the
    search path is put back. *)
Lemma generate_example_doc_cache_present docs_path script_path w ok w1 :
  attempted snapshot docs_path script_path (entering script_path w) = (Ok ok, w1) →
  enaml_cache_dir script_path ∈ dirs w1 →
  let w2 := with_sys_path (sys_path w) (without_tree (enaml_cache_dir script_path) w1) in
  generate_example_doc snapshot docs_path script_path w
  = match files w2 !! script_path with
    | None => (Raise (FileNotFoundError script_path), w2)
    | Some data =>
        match extract_docstring (universal_newlines data) with
        | Raise e => (Raise e, w2)
        | Ok docstring =>
            (Ok tt,
             with_file (rst_path docs_path script_path)
               (str_lstrip (example_doc_rst script_path (clean_docstring docstring) ok))
               w2)
        end
    end.
Proof.
  intros Ha Hd. rewrite generate_example_doc_unfold, try_snapshot_unfold, Ha.
  by rewrite bool_decide_eq_true_2.
Qed.

(** An exception that the except clause lets pass leaves
    generate_example_doc once the cache is removed: the assignment that puts
    the search path back is not reached and the example is not read. *)
Lemma generate_example_doc_escapes docs_path script_path w e w1 :
  attempted snapshot docs_path script_path (entering script_path w) = (Raise e, w1) →
  enaml_cache_dir script_path ∈ dirs w1 →
  generate_example_doc snapshot docs_path script_path w
  = (Raise e, without_tree (enaml_cache_dir script_path) w1).
Proof.
  intros Ha Hd. rewrite generate_example_doc_unfold, try_snapshot_unfold, Ha.
  by rewrite bool_decide_eq_true_2.
Qed.

(** What the try statement comes to, by what the capability does. *)
Lemma attempted_returns docs_path script_path w w1 :
  snapshot (script_name script_path) (image_path docs_path script_path) w = (Ok tt, w1) →
  attempted snapshot docs_path script_path w = (Ok true, w1).
Proof. intros Hs. unfold attempted. by rewrite Hs. Qed.

Lemma attempted_caught docs_path script_path w err w1 :
  snapshot (script_name script_path) (image_path docs_path script_path) w = (Raise err, w1) →
  is_Exception err = true →
  attempted snapshot docs_path script_path w = (Ok false, reported script_path err w1).
Proof. intros Hs He. unfold attempted. by rewrite Hs, He. Qed.

Lemma attempted_passed docs_path script_path w err w1 :
  snapshot (script_name script_path) (image_path docs_path script_path) w = (Raise err, w1) →
  is_Exception err = false →
  attempted snapshot docs_path script_path w = (Raise err, w1).
Proof. intros Hs He. unfold attempted. by rewrite Hs, He. Qed.

End GeneratorProperties.

(** ** The snapshot step *)

Section SnapshotStep.

Variable snapshot : text → text → Run unit.

(** C2: the specification has the removal of an absent cache directory
    ignored, but the finally clause calls rmtree without ignore_errors: when
    the directory is not there after the snapshot attempt, rmtree raises
    FileNotFoundError and the error leaves generate_example_doc. *)
Theorem cleanup_of_absent_cache_raises (docs_path script_path : text) (w : World) tried w1 :
  attempted snapshot docs_path script_path (entering script_path w) = (tried, w1) →
  enaml_cache_dir script_path ∉ dirs w1 →
  shutil.rmtree (enaml_cache_dir script_path) w1
    = (Raise (FileNotFoundError (enaml_cache_dir script_path)), w1)
  ∧ fst (generate_example_doc snapshot docs_path script_path w)
    = Raise (FileNotFoundError (enaml_cache_dir script_path)).
Proof.
  intros Ha Hd. split.
  - unfold shutil.rmtree. by rewrite bool_decide_eq_false_2.
  - by rewrite (generate_example_doc_cache_absent snapshot _ _ _ tried w1).
Qed.

(** C3: the search path is put back after the try statement, not in its
    finally clause. When the removal of the cache raises, the assignment is
    never reached: generate_example_doc is left with the directory of the
    script still on the search path. *)
Theorem sys_path_kept_when_cleanup_raises (docs_path script_path : text) (w : World) tried w1 :
  attempted snapshot docs_path script_path (entering script_path w) = (tried, w1) →
  enaml_cache_dir script_path ∉ dirs w1 →
  sys_path w1 = sys_path (entering script_path w) →
  sys_path (snd (generate_example_doc snapshot docs_path script_path w))
    = sys_path w ++ [os_path.dirname script_path]
  ∧ length (sys_path (snd (generate_example_doc snapshot docs_path script_path w)))
    = S (length (sys_path w)).
Proof.
  intros Ha Hd Hp.
  rewrite (generate_example_doc_cache_absent snapshot _ _ _ tried w1) by done.
  cbn [snd]. rewrite Hp. cbn. split; [done|]. rewrite length_app. simpl. lia.
Qed.

(** X9, what holds of the search path by design: when the capability
    returns or raises an exception of class Exception (the try statement comes
    to a flag, [Ok ok]) and the cache is there to be removed,
    generate_example_doc leaves the search path as it found it, whether the
    snapshot was taken or not and whatever the capability did to the path,
    also when the reading or the extraction fails afterwards. An exception
    that is not of class Exception is outside the statement: it passes the
    except clause and the path is not put back
    (sys_path_kept_when_exception_passes). *)
Lemma sys_path_restored_when_cleanup_succeeds (docs_path script_path : text) (w : World) ok w1 :
  attempted snapshot docs_path script_path (entering script_path w) = (Ok ok, w1) →
  enaml_cache_dir script_path ∈ dirs w1 →
  sys_path (snd (generate_example_doc snapshot docs_path script_path w)) = sys_path w.
Proof.
  intros Ha Hd.
  rewrite (generate_example_doc_cache_present snapshot _ _ _ ok w1) by done.
  cbv zeta. destruct (files _ !! script_path) as [data|]; [|done].
  by destruct (extract_docstring _).
Qed.

(** The other side of the same design: SystemExit or KeyboardInterrupt from
    the capability pass the except clause; with the cache removed they leave
    generate_example_doc, and the search path stays as the try statement left
    it. *)
Lemma sys_path_kept_when_exception_passes (docs_path script_path : text) (w : World) err w1 :
  snapshot (script_name script_path) (image_path docs_path script_path)
      (entering script_path w) = (Raise err, w1) →
  is_Exception err = false →
  enaml_cache_dir script_path ∈ dirs w1 →
  fst (generate_example_doc snapshot docs_path script_path w) = Raise err
  ∧ sys_path (snd (generate_example_doc snapshot docs_path script_path w)) = sys_path w1.
Proof.
  intros Hs He Hd.
  by rewrite (generate_example_doc_escapes snapshot _ _ _ err w1)
    by (by apply attempted_passed || done).
Qed.

(** C4: the specification has a failed snapshot caught and the document
    written all the same, without the screenshot block. The except clause
    does catch and report an exception of class Exception, but the finally
    clause then removes the cache directory without ignore_errors: when the
    capability failed before a cache was written (the directory is not there),
    rmtree raises FileNotFoundError, which leaves generate_example_doc in the
    world the except clause left. The example is never read and no file is
    written, whatever the example holds. *)
Theorem failed_snapshot_without_cache_writes_nothing
    (docs_path script_path : text) (w : World) err w1 :
  snapshot (script_name script_path) (image_path docs_path script_path)
      (entering script_path w) = (Raise err, w1) →
  is_Exception err = true →
  enaml_cache_dir script_path ∉ dirs w1 →
  generate_example_doc snapshot docs_path script_path w
    = (Raise (FileNotFoundError (enaml_cache_dir script_path)),
       reported script_path err w1)
  ∧ files (snd (generate_example_doc snapshot docs_path script_path w)) = files w1.
Proof.
  intros Hs He Hd.
  by rewrite (generate_example_doc_cache_absent snapshot _ _ _ (Ok false)
                (reported script_path err w1))
    by (by apply attempted_caught || done).
Qed.

(** What the code does with a failed snapshot when the cache is there: an
    exception of class Exception is caught and reported, the cache is
    removed, and when the example can be read and its text holds a delimiter
    the document is written, rendered with an empty screenshot fragment. *)
Lemma failed_snapshot_still_writes_document
    (docs_path script_path : text) (w : World) err w1 data docstring :
  snapshot (script_name script_path) (image_path docs_path script_path)
      (entering script_path w) = (Raise err, w1) →
  is_Exception err = true →
  enaml_cache_dir script_path ∈ dirs w1 →
  files (without_tree (enaml_cache_dir script_path) w1) !! script_path = Some data →
  is_ascii data = true →
  is_ascii script_path = true →
  extract_docstring (universal_newlines data) = Ok docstring →
  generate_example_doc snapshot docs_path script_path w
  = (Ok tt,
     with_file (rst_path docs_path script_path)
       (str_lstrip
          (EXAMPLE_DOC_RST_TEMPLATE (script_title script_path) (script_name script_path)
             (relative_script_path script_path) (clean_docstring docstring) []))
       (with_sys_path (sys_path w)
          (without_tree (enaml_cache_dir script_path) (reported script_path err w1)))).
Proof.
  intros Hs Hc Hd Hf _ _ He.
  rewrite (generate_example_doc_cache_present snapshot _ _ _ false
             (reported script_path err w1)); [|by apply attempted_caught|done].
  cbv zeta. cbn [files with_sys_path without_tree reported printed] in *.
  by rewrite Hf, He.
Qed.

End SnapshotStep.

(** The failing run of C2: the capability raises before any cache is written,
    the except clause reports it, and the finally clause raises in turn. *)
Lemma cleanup_of_absent_cache_raises_witness :
  attempted snapshot_fails sample_docs_path sample_script_path
      (entering sample_script_path world_without_cache)
    = (Ok false,
       reported sample_script_path (Exception (txt "No module named matplotlib"))
         (entering sample_script_path world_without_cache))
  ∧ (sample_cache_dir ∉ dirs world_without_cache)
  ∧ fst (generate_example_doc snapshot_fails sample_docs_path sample_script_path
           world_without_cache)
    = Raise (FileNotFoundError sample_cache_dir).
Proof.
  assert (Ha : attempted snapshot_fails sample_docs_path sample_script_path
                 (entering sample_script_path world_without_cache)
               = (Ok false,
                  reported sample_script_path (Exception (txt "No module named matplotlib"))
                    (entering sample_script_path world_without_cache))) by reflexivity.
  assert (Hd : sample_cache_dir ∉ dirs world_without_cache).
  { apply (bool_decide_unpack _). vm_compute. exact I. }
  split; [exact Ha|]. split; [exact Hd|].
  exact (proj2 (cleanup_of_absent_cache_raises snapshot_fails
                  sample_docs_path sample_script_path world_without_cache _ _ Ha Hd)).
Defined.

(** The failing run of C3: the same run ends with the directory of the
    example on the search path. *)
Lemma sys_path_kept_when_cleanup_raises_witness :
  sys_path world_without_cache = [txt "/usr/lib/python3"]
  ∧ sys_path (snd (generate_example_doc snapshot_fails sample_docs_path sample_script_path
                     world_without_cache))
    = [txt "/usr/lib/python3"; txt "/repo/examples/widgets"].
Proof.
  split; [reflexivity|].
  refine (proj1 (sys_path_kept_when_cleanup_raises snapshot_fails
                   sample_docs_path sample_script_path world_without_cache (Ok false)
                   (reported sample_script_path (Exception (txt "No module named matplotlib"))
                      (entering sample_script_path world_without_cache)) _ _ _)).
  - reflexivity.
  - apply (bool_decide_unpack _). vm_compute. exact I.
  - reflexivity.
Defined.

(** The failing run of C4: the example is in order (its docstring can be
    extracted), a dependency of it is missing, so the import raises
    ImportError before any cache is written. The error is caught and
    reported, the removal of the cache raises, and no document is there at
    the end. *)
Lemma failed_snapshot_without_cache_writes_nothing_witness :
  files world_without_cache !! sample_script_path = Some sample_source
  ∧ extract_docstring (universal_newlines sample_source)
    = Ok (txt " A `PushButton` demo." ++ [LF; LF] ++ MARKER ++ [LF; LF])
  ∧ generate_example_doc snapshot_fails sample_docs_path sample_script_path
      world_without_cache
    = (Raise (FileNotFoundError sample_cache_dir),
       reported sample_script_path (Exception (txt "No module named matplotlib"))
         (entering sample_script_path world_without_cache))
  ∧ (files (snd (generate_example_doc snapshot_fails sample_docs_path sample_script_path
                   world_without_cache)))
      !! (rst_path sample_docs_path sample_script_path) = None.
Proof.
  destruct (failed_snapshot_without_cache_writes_nothing snapshot_fails
              sample_docs_path sample_script_path world_without_cache
              (Exception (txt "No module named matplotlib"))
              (entering sample_script_path world_without_cache)) as [Hrun Hfiles].
  - reflexivity.
  - reflexivity.
  - apply (bool_decide_unpack _). vm_compute. exact I.
  - split; [reflexivity|]. split; [vm_compute; reflexivity|]. split; [exact Hrun|].
    rewrite Hfiles. vm_compute. reflexivity.
Defined.

Lemma failed_snapshot_still_writes_document_witness :
  fst (generate_example_doc snapshot_fails sample_docs_path sample_script_path
         world_with_cache) = Ok tt
  ∧ (files (snd (generate_example_doc snapshot_fails sample_docs_path sample_script_path
                   world_with_cache)))
      !! (txt "/repo/docs/source/examples/ex_push_button.rst")
    = Some (str_lstrip
              (EXAMPLE_DOC_RST_TEMPLATE (txt "Push Button") (txt "push_button")
                 (txt "examples/widgets/push_button.enaml")
                 (txt "A ``PushButton`` demo.") [])).
Proof.
  rewrite (failed_snapshot_still_writes_document snapshot_fails
             sample_docs_path sample_script_path world_with_cache
             (Exception (txt "No module named matplotlib"))
             (entering sample_script_path world_with_cache)
             sample_source (txt " A `PushButton` demo." ++ [LF; LF] ++ MARKER ++ [LF; LF])).
  - split; [reflexivity | vm_compute; reflexivity].
  - reflexivity.
  - reflexivity.
  - apply (bool_decide_unpack _). vm_compute. exact I.
  - vm_compute. reflexivity.
  - vm_compute. reflexivity.
  - vm_compute. reflexivity.
  - vm_compute. reflexivity.
Defined.

(** ** The run of main *)

Section MainProperties.

Variable snapshot : text → text → Run unit.

Lemma for_each_app {A} (body : A → Run unit) l1 l2 w :
  for_each body (l1 ++ l2) w
  = match for_each body l1 w with
    | (Ok _, w1) => for_each body l2 w1
    | (Raise e, w1) => (Raise e, w1)
    end.
Proof.
  revert w. induction l1 as [|x l1 IH]; intros w; [done|].
  cbn [app for_each]. unfold mbind, Run_bind.
  destruct (body x w) as [[[]|e] w']; [apply IH | done].
Qed.

Lemma for_each_cons {A} (body : A → Run unit) x l w :
  for_each body (x :: l) w
  = match body x w with
    | (Ok _, w1) => for_each body l w1
    | (Raise e, w1) => (Raise e, w1)
    end.
Proof. cbn [for_each]. unfold mbind, Run_bind. by destruct (body x w) as [[[]|e] w1]. Qed.

(** A loop stops at the first turn that raises. *)
Lemma for_each_raise {A} (body : A → Run unit) l1 x l2 w w1 e w2 :
  for_each body l1 w = (Ok tt, w1) →
  body x w1 = (Raise e, w2) →
  for_each body (l1 ++ x :: l2) w = (Raise e, w2).
Proof.
  intros H1 Hx. rewrite for_each_app, H1. cbn [for_each].
  unfold mbind, Run_bind. by rewrite Hx.
Qed.

Lemma visit_unfold docs_path fname w :
  visit snapshot docs_path fname w
  = match files w !! fname with
    | None => (Raise (FileNotFoundError fname), w)
    | Some data =>
        if has_marker data then generate_example_doc snapshot docs_path fname w
        else (Ok tt, w)
    end.
Proof.
  unfold visit, read_bytes. unfold mbind, mret, Run_bind, Run_ret.
  destruct (files w !! fname) as [data|]; [|done]. by destruct (has_marker data).
Qed.

(** The docstring of a marked example cannot be extracted: the error leaves
    generate_example_doc once the search path is put back. *)
Lemma generate_example_doc_extraction_fails docs_path script_path w ok w1 data e :
  try_snapshot snapshot docs_path script_path (entering script_path w) = (Ok ok, w1) →
  files w1 !! script_path = Some data →
  extract_docstring (universal_newlines data) = Raise e →
  generate_example_doc snapshot docs_path script_path w
  = (Raise e, with_sys_path (sys_path w) w1).
Proof.
  intros Ht Hf He. by rewrite generate_example_doc_unfold, Ht, Hf, He.
Qed.

(** C6: main reaches a marked example whose docstring cannot be extracted.
    The run ends there with the error of the extraction, in the world that
    generate_example_doc left: the candidates that follow in the directory
    ([after]) and the directories that follow in the walk ([walk_after]) are
    not visited. *)
Theorem main_aborts_on_extraction_failure
    (white_list : list text) (docs_path : text)
    (walk_before walk_after : list (text * list text * list text))
    (dirname : text) (dirnames filenames before after : list text) (fname : text)
    (w w1 w2 w3 : World) (data data' : text) (ok : bool) :
  main snapshot white_list docs_path walk_before w = (Ok tt, w1) →
  candidates white_list dirname filenames = before ++ fname :: after →
  for_each (visit snapshot docs_path) before w1 = (Ok tt, w2) →
  files w2 !! fname = Some data →
  has_marker data = true →
  try_snapshot snapshot docs_path fname (entering fname w2) = (Ok ok, w3) →
  files w3 !! fname = Some data' →
  extract_docstring (universal_newlines data') = Raise IndexError →
  main snapshot white_list docs_path
    (walk_before ++ (dirname, dirnames, filenames) :: walk_after) w
  = (Raise IndexError, with_sys_path (sys_path w2) w3).
Proof.
  intros Hwalk Hcand Hbefore Hdata Hmark Htry Hdata' Hextract.
  unfold main in *. eapply for_each_raise; [exact Hwalk|].
  cbn beta iota. rewrite Hcand.
  eapply for_each_raise; [exact Hbefore|].
  rewrite visit_unfold, Hdata, Hmark.
  by eapply generate_example_doc_extraction_fails.
Qed.

End MainProperties.

(** Two marked examples in one directory, the first without a docstring:
    main raises at the first, the document of the second is not written and
    nothing is printed for it. *)
Lemma main_aborts_on_extraction_failure_witness :
  fst (main snapshot_fails [] sample_docs_path two_examples_walk two_examples_world)
    = Raise IndexError
  ∧ (files (snd (main snapshot_fails [] sample_docs_path two_examples_walk
                   two_examples_world)))
      !! (rst_path sample_docs_path second_script_path) = None
  ∧ stdout (snd (main snapshot_fails [] sample_docs_path two_examples_walk
                   two_examples_world))
    = [ txt "generating doc for push_button";
        txt "Could not snapshot: push_button";
        txt "    No module named matplotlib" ].
Proof.
  assert (H : main snapshot_fails [] sample_docs_path two_examples_walk two_examples_world
              = (Raise IndexError,
                 with_sys_path (sys_path two_examples_world)
                   (without_tree sample_cache_dir
                      (reported sample_script_path
                         (Exception (txt "No module named matplotlib"))
                         (entering sample_script_path two_examples_world))))).
  { apply (main_aborts_on_extraction_failure snapshot_fails [] sample_docs_path
             [(txt "/repo/examples", [txt "widgets"], [])] []
             (txt "/repo/examples/widgets") [] [txt "push_button.enaml"; txt "slider.enaml"]
             [] [second_script_path] sample_script_path
             two_examples_world two_examples_world two_examples_world
             (without_tree sample_cache_dir
                (reported sample_script_path (Exception (txt "No module named matplotlib"))
                   (entering sample_script_path two_examples_world)))
             sample_source_no_docstring sample_source_no_docstring false);
      vm_compute; reflexivity. }
  rewrite H. split; [reflexivity|]. split; vm_compute; reflexivity.
Defined.

(** ** The derived names *)

Lemma forallb_not_elem (x : ascii) (l : text) :
  x ∉ l → forallb (λ c, negb (bool_decide (c = x))) l = true.
Proof.
  intros Hx. apply forallb_forall. intros c Hc%list_elem_of_In.
  apply negb_true_iff, bool_decide_eq_false. by intros ->.
Qed.

Lemma elem_of_rev (x : ascii) (l : text) : x ∈ rev l ↔ x ∈ l.
Proof. rewrite !list_elem_of_In. symmetry. apply in_rev. Qed.

Lemma basename_after_sep dir f :
  SLASH ∉ f → os_path.basename (dir ++ SLASH :: f) = f.
Proof.
  intros Hf. unfold os_path.basename.
  rewrite rev_app_distr. cbn [rev]. rewrite <- app_assoc. cbn [app].
  rewrite take_while_app.
  assert (forallb os_path.not_sep (rev f) = true) as ->.
  { apply (forallb_not_elem SLASH). by rewrite elem_of_rev. }
  cbn. by rewrite app_nil_r, rev_involutive.
Qed.

Lemma str_find_char_first c stem rest :
  c ∉ stem → str_find [c] (stem ++ c :: rest) = Some (length stem).
Proof.
  intros Hc. apply str_find_Some. split.
  - unfold occurs_at. rewrite drop_app_length. by exists rest.
  - intros j Hj [k Hk]. apply Hc.
    rewrite drop_app_le in Hk by lia.
    destruct (drop j stem) as [|d t] eqn:E.
    { apply (f_equal length) in E. rewrite length_drop in E. simpl in E. lia. }
    injection Hk as -> _.
    rewrite <- (take_drop j stem), E. apply elem_of_app. right. left.
Qed.

Lemma script_name_stem dir stem ext :
  SLASH ∉ stem → SLASH ∉ ext → DOT ∉ stem →
  script_name (dir ++ SLASH :: stem ++ DOT :: ext) = stem.
Proof.
  intros Hs He Hd. unfold script_name.
  rewrite basename_after_sep.
  - unfold str_find_z, slice_to, slice_index. rewrite str_find_char_first by done.
    assert ((Z.of_nat (length stem) <? 0)%Z = false) as -> by (apply Z.ltb_ge; lia).
    by rewrite Nat2Z.id, take_app_length.
  - rewrite elem_of_app, elem_of_cons. intros [?|[?|?]]; done.
Qed.

Lemma spec_base_name_stem dir stem ext :
  SLASH ∉ stem → SLASH ∉ ext → DOT ∉ ext →
  spec_base_name (dir ++ SLASH :: stem ++ DOT :: ext) = stem.
Proof.
  intros Hs He Hd. unfold spec_base_name.
  rewrite basename_after_sep.
  - rewrite bool_decide_eq_true_2 by set_solver.
    rewrite rev_app_distr. cbn [rev]. rewrite <- app_assoc. cbn [app].
    rewrite drop_while_app.
    assert (forallb (λ c, negb (bool_decide (c = DOT))) (rev ext) = true) as ->.
    { apply (forallb_not_elem DOT). by rewrite elem_of_rev. }
    cbn [drop_while]. rewrite bool_decide_eq_true_2 by done.
    cbn [negb skipn]. by rewrite drop_0, rev_involutive.
  - rewrite elem_of_app, elem_of_cons. intros [?|[?|?]]; done.
Qed.

Lemma generate_example_doc_writes snapshot docs_path script_path w w' :
  generate_example_doc snapshot docs_path script_path w = (Ok tt, w') →
  is_Some (files w' !! rst_path docs_path script_path).
Proof.
  rewrite generate_example_doc_unfold.
  destruct (try_snapshot _ _ _ _) as [[ok|e] w1]; [|done]. cbv zeta.
  destruct (files w1 !! script_path) as [data|]; [|done].
  destruct (extract_docstring _) as [doc|e]; [|done].
  intros [= <-]. cbn [files with_file]. rewrite lookup_insert_eq. eauto.
Qed.

(** C10, as amended: for an example [dir/stem.ext] whose [stem] holds no dot
    (every [stem.enaml] that main finds, when [stem] holds no dot), the base
    name that generate_example_doc derives is [stem], the file name cut at its
    first dot; this is the file name without its directory and extension when
    [ext] holds no dot either. The image name is [ex_stem.png], and a run
    that succeeds leaves the document at [join(docs_path, ex_stem.rst)],
    which is [docs_path/ex_stem.rst] for a [docs_path] that is not empty and
    does not end with a separator. *)
Theorem base_name_and_document_path
    (snapshot : text → text → Run unit) (docs_path dir stem ext : text) :
  SLASH ∉ stem → SLASH ∉ ext → DOT ∉ stem →
  let script_path := dir ++ SLASH :: stem ++ DOT :: ext in
  script_name script_path = stem
  ∧ (DOT ∉ ext → spec_base_name script_path = stem)
  ∧ script_title script_path = str_title (str_replace [UNDERSCORE] [SPACE] stem)
  ∧ script_image_name script_path = txt "ex_" ++ stem ++ txt ".png"
  ∧ rst_path docs_path script_path = os_path.join docs_path [txt "ex_" ++ stem ++ txt ".rst"]
  ∧ (docs_path ≠ [] → endswith docs_path [SLASH] = false →
     rst_path docs_path script_path = docs_path ++ txt "/ex_" ++ stem ++ txt ".rst")
  ∧ (∀ w w', generate_example_doc snapshot docs_path script_path w = (Ok tt, w') →
             is_Some (files w' !! os_path.join docs_path [txt "ex_" ++ stem ++ txt ".rst"])).
Proof.
  intros Hs He Hd script_path.
  assert (Hname : script_name script_path = stem) by by apply script_name_stem.
  split; [done|]. split; [by apply spec_base_name_stem|].
  unfold script_title, script_image_name, rst_path. rewrite Hname.
  repeat split; try done.
  - intros Hne Hend. unfold os_path.join, os_path.join_step. cbn [foldl].
    assert (startswith (txt "ex_" ++ stem ++ txt ".rst") [SLASH] = false) as ->.
    { apply startswith_false. by intros [k [=]]. }
    rewrite Hend, bool_decide_eq_false_2 by done. done.
  - intros w w' Hrun. apply generate_example_doc_writes in Hrun.
    unfold rst_path in Hrun. by rewrite Hname in Hrun.
Qed.

(** The names derived for [push_button.enaml], and the document of a run. *)
Lemma base_name_and_document_path_witness :
  script_name sample_script_path = txt "push_button"
  ∧ spec_base_name sample_script_path = txt "push_button"
  ∧ rst_path sample_docs_path sample_script_path
    = txt "/repo/docs/source/examples/ex_push_button.rst"
  ∧ is_Some ((files (snd (generate_example_doc snapshot_succeeds sample_docs_path
                            sample_script_path world_with_cache)))
               !! (txt "/repo/docs/source/examples/ex_push_button.rst")).
Proof.
  assert (H1 : SLASH ∉ txt "push_button") by (apply (bool_decide_unpack _); vm_compute; exact I).
  assert (H2 : SLASH ∉ txt "enaml") by (apply (bool_decide_unpack _); vm_compute; exact I).
  assert (H3 : DOT ∉ txt "push_button") by (apply (bool_decide_unpack _); vm_compute; exact I).
  assert (H4 : DOT ∉ txt "enaml") by (apply (bool_decide_unpack _); vm_compute; exact I).
  destruct (base_name_and_document_path snapshot_succeeds sample_docs_path
              (txt "/repo/examples/widgets") (txt "push_button") (txt "enaml") H1 H2 H3)
    as (Hname & Hspec & _ & _ & _ & Hrst & Hrun).
  split; [exact Hname|]. split; [exact (Hspec H4)|].
  split; [apply Hrst; [done | reflexivity]|].
  apply (Hrun world_with_cache). vm_compute. reflexivity.
Defined.

(** C10 fails as stated: for a file name with two dots the base name is cut
    at the first one, so it is not the file name minus its extension, and the
    document goes to [ex_employee.rst]. *)
Lemma base_name_cut_at_first_dot :
  script_name (txt "/repo/examples/employee.v2.enaml") = txt "employee"
  ∧ spec_base_name (txt "/repo/examples/employee.v2.enaml") = txt "employee.v2"
  ∧ rst_path sample_docs_path (txt "/repo/examples/employee.v2.enaml")
    = txt "/repo/docs/source/examples/ex_employee.rst".
Proof. repeat split; reflexivity. Qed.

(** ** Lines *)













(** ** Discovery *)

Lemma endswith_true s p : endswith s p = true ↔ p `suffix_of` s.
Proof. unfold endswith. apply bool_decide_eq_true. Qed.

Lemma elem_of_candidates white_list dirname filenames p :
  p ∈ candidates white_list dirname filenames
  ↔ ∃ f, f ∈ filenames ∧ p = os_path.join dirname [f]
         ∧ endswith f (txt ".enaml") = true
         ∧ (white_list = [] ∨ ∃ suffix, suffix ∈ white_list ∧ endswith p suffix = true).
Proof.
  unfold candidates.
  assert (Hfiles : ∀ q,
    q ∈ (λ f, os_path.join dirname [f]) <$> filter (λ f, endswith f (txt ".enaml")) filenames
    ↔ ∃ f, f ∈ filenames ∧ q = os_path.join dirname [f] ∧ endswith f (txt ".enaml") = true).
  { intros q. rewrite list_elem_of_fmap. split.
    - intros (f & -> & [Hf ?]%list_elem_of_filter). exists f.
      repeat split; try done. by apply Is_true_true.
    - intros (f & ? & -> & Hf). exists f. split; [done|].
      apply list_elem_of_filter. split; [|done]. by apply Is_true_true. }
  destruct white_list as [|s0 white_list].
  - rewrite Hfiles. split.
    + intros (f & ? & ? & ?). exists f. eauto.
    + intros (f & ? & ? & ? & _). exists f. eauto.
  - rewrite list_elem_of_filter, Hfiles. split.
    + intros [Hany (f & ? & ? & ?)]. exists f. repeat split; try done. right.
      apply Is_true_true, existsb_exists in Hany as (suffix & Hin & ?).
      exists suffix. split; [by apply list_elem_of_In | done].
    + intros (f & ? & ? & ? & [?|(suffix & Hin & ?)]); [done|]. split; [|by exists f].
      apply Is_true_true, existsb_exists. exists suffix.
      split; [by apply list_elem_of_In | done].
Qed.

Lemma elem_of_concat (y : text) (l : list (list text)) :
  y ∈ concat l ↔ ∃ x, y ∈ x ∧ x ∈ l.
Proof.
  rewrite list_elem_of_In, in_concat. split.
  - intros (x & ? & ?). exists x. by rewrite !list_elem_of_In.
  - intros (x & ? & ?). exists x. by rewrite <- !list_elem_of_In.
Qed.



(** The scenario of the specification: of three examples two hold the marker
    line; both are selected with an empty allow-list, and an allow-list that
    names one of them selects that one. *)
Lemma discover_scenario :
  discover [] three_examples_walk three_examples_world
    = [sample_script_path; second_script_path]
  ∧ discover [txt "slider.enaml"] three_examples_walk three_examples_world
    = [second_script_path].
Proof. split; vm_compute; reflexivity. Qed.

(** The run of main is the generation of the discovered examples, one after
    the other, as long as the files the walk lists are there and the
    generation of one example leaves the bytes of all of them alone. *)
Section MainDiscovers.

Variable snapshot : text → text → Run unit.
Variables (white_list : list text) (docs_path : text).
Variable walk : list (text * list text * list text).
Variable w0 : World.

Hypothesis examples_exist : ∀ q, q ∈ all_candidates white_list walk → is_Some (files w0 !! q).

Hypothesis examples_kept : ∀ p w w',
  p ∈ all_candidates white_list walk →
  generate_example_doc snapshot docs_path p w = (Ok tt, w') →
  ∀ q, q ∈ all_candidates white_list walk → files w' !! q = files w !! q.



End MainDiscovers.



(** ** What the hypotheses of C7 and C8 cover *)

Lemma occurs_at_app a sub c : occurs_at sub (a ++ sub ++ c) (length a).
Proof. unfold occurs_at. rewrite drop_app_length. by exists c. Qed.

Lemma str_find_is_Some sub s i : occurs_at sub s i → ∃ j, str_find sub s = Some j ∧ j ≤ i.
Proof.
  intros Hocc. destruct (str_find sub s) as [j|] eqn:F.
  - exists j. split; [done|]. apply str_find_Some in F as [_ Hmin].
    destruct (decide (j ≤ i)); [done|]. destruct (Hmin i); [lia | done].
  - rewrite str_find_None in F. by destruct (F i).
Qed.

(** The count of [str.count] is at least two exactly when the text holds two
    delimiters that do not overlap. *)
Lemma two_delimiters_iff s :
  2 ≤ str_count DELIMITER s ↔ ∃ a b c, s = a ++ DELIMITER ++ b ++ DELIMITER ++ c.
Proof.
  split.
  - intros (i & j & [Hs _]%str_find_Some%first_occurrence_split
                    & [Hr _]%str_find_Some%first_occurrence_split)%two_delimiters_found.
    exists (take i s), (take j (drop (i + 3) s)), (drop (j + 3) (drop (i + 3) s)).
    by rewrite <- Hr.
  - intros (a & b & c & ->).
    destruct (str_find_is_Some DELIMITER (a ++ DELIMITER ++ b ++ DELIMITER ++ c) (length a))
      as (i & Hi & Hle); [apply occurs_at_app|].
    rewrite (count_DELIMITER_found _ i Hi).
    assert (Hocc : occurs_at DELIMITER (drop (i + 3) (a ++ DELIMITER ++ b ++ DELIMITER ++ c))
                     (length a - i + length b)).
    { unfold occurs_at. rewrite drop_drop.
      replace (i + 3 + (length a - i + length b)) with (length a + (3 + length b)) by lia.
      rewrite drop_app_add'; [|done].
      change (DELIMITER ++ b ++ DELIMITER ++ c) with ([DQUOTE; DQUOTE; DQUOTE] ++ b ++ DELIMITER ++ c).
      rewrite (drop_app_add' [DQUOTE; DQUOTE; DQUOTE]); [|done].
      rewrite drop_app_length. by exists c. }
    destruct (str_find_is_Some _ _ _ Hocc) as (j & Hj & _).
    rewrite (count_DELIMITER_found _ j Hj). lia.
Qed.

Lemma match_identifier_extend t u id rest0 :
  match_identifier (BACKQUOTE :: t ++ [BACKQUOTE]) = Some (id, rest0) →
  match_identifier (BACKQUOTE :: t ++ BACKQUOTE :: u) = Some (id, rest0 ++ u).
Proof.
  intros [E Hid]%match_identifier_Some. injection E as E.
  apply match_identifier_Some. split; [|done]. f_equal.
  change (t ++ BACKQUOTE :: u) with (t ++ [BACKQUOTE] ++ u).
  rewrite app_assoc, E, <- app_assoc. done.
Qed.

(** [re.search] finds the leftmost token that matches. *)
Lemma re_search_Some s i id :
  re_search s = Some (i, id) →
  ∃ rest, s = take i s ++ single_backquoted id ++ rest
          ∧ re_search (take i s ++ [BACKQUOTE]) = None
          ∧ is_identifier id = true.
Proof.
  revert i. induction s as [|c s IH]; intros i; [done|].
  cbn [re_search].
  destruct (match_identifier (c :: s)) as [[id' rest']|] eqn:Hm.
  - intros [= <- <-]. apply match_identifier_Some in Hm as [-> Hid].
    exists rest'. rewrite single_backquoted_app. done.
  - destruct (re_search s) as [[i' id']|] eqn:Hs; [|done]. intros [= <- <-].
    destruct (IH i' eq_refl) as (rest & Hrest & Hnone & Hid).
    exists rest. cbn [take firstn]. rewrite <- !app_comm_cons, <- Hrest.
    repeat split; try done.
    apply re_search_cons_None. split; [|done].
    destruct (decide (c = BACKQUOTE)) as [->|Hc]; [|by apply match_identifier_other].
    destruct (match_identifier (BACKQUOTE :: take i' s ++ [BACKQUOTE]))
      as [[id0 rest0]|] eqn:E; [|done].
    apply (match_identifier_extend _ (id' ++ BACKQUOTE :: rest)) in E.
    rewrite Hrest, single_backquoted_app in Hm. congruence.
Qed.

(** Every text has the layout that C8 asks for. *)
Lemma tokens_layout_exists s :
  ∃ segments tail,
    s = tokens_text single_backquoted segments tail
    ∧ Forall leftmost_match segments ∧ re_search tail = None.
Proof.
  induction s as [s IH] using (induction_ltof1 _ length). unfold ltof in IH.
  destruct (re_search s) as [[i id]|] eqn:Hs.
  - destruct (re_search_Some _ _ _ Hs) as (rest & Hrest & Hnone & Hid).
    destruct (IH rest) as (segments & tail & -> & Hsegs & Htail).
    { apply (f_equal length) in Hrest. rewrite !length_app in Hrest.
      unfold single_backquoted in Hrest. simpl in Hrest. lia. }
    exists ((take i s, id) :: segments), tail. split; [|split; [|done]].
    + unfold tokens_text in *. rewrite fmap_cons. cbn [concat fst snd].
      by rewrite <- !app_assoc.
    + by constructor.
  - exists [], s. by repeat split.
Qed.

(** * Further properties of the text transforms *)

(** ** extract_docstring at one delimiter, and what it returns *)

(** X1: a text with exactly one delimiter is cut at it: extract_docstring
    returns all that follows the delimiter, up to the end of the text. *)
Theorem extract_docstring_one_delimiter (script_text : text) :
  str_count DELIMITER script_text = 1 →
  ∃ before rest,
    script_text = before ++ DELIMITER ++ rest
    ∧ first_occurrence DELIMITER script_text (length before)
    ∧ str_find DELIMITER rest = None
    ∧ extract_docstring script_text = Ok rest.
Proof.
  intros Hcount.
  destruct (str_find DELIMITER script_text) as [i|] eqn:F; last first.
  { by rewrite count_DELIMITER_not_found in Hcount. }
  rewrite (count_DELIMITER_found script_text i) in Hcount by done.
  assert (G : str_find DELIMITER (drop (i + 3) script_text) = None).
  { apply str_count_zero; [apply DELIMITER_nonempty | lia]. }
  pose proof F as Hi. apply str_find_Some in Hi.
  destruct (first_occurrence_split _ _ Hi) as [Hs Hlen].
  exists (take i script_text), (drop (i + 3) script_text).
  rewrite <- Hs, Hlen. repeat split; try apply Hi; try done.
  unfold extract_docstring.
  rewrite (split_DELIMITER_found script_text i) by done.
  by rewrite str_split_not_found.
Qed.

(** A source whose docstring is never closed. *)
Lemma extract_docstring_one_delimiter_witness :
  str_count DELIMITER (txt "# demo" ++ [LF] ++ DELIMITER ++ txt " Open docstring") = 1
  ∧ extract_docstring (txt "# demo" ++ [LF] ++ DELIMITER ++ txt " Open docstring")
    = Ok (txt " Open docstring").
Proof.
  assert (H : str_count DELIMITER
                (txt "# demo" ++ [LF] ++ DELIMITER ++ txt " Open docstring") = 1)
    by (vm_compute; reflexivity).
  split; [exact H|].
  destruct (extract_docstring_one_delimiter _ H) as (before & rest & _ & _ & _ & Hrest).
  rewrite Hrest. f_equal. vm_compute in Hrest. by injection Hrest as <-.
Defined.

Lemma str_find_None_take sub s j :
  sub ≠ [] → str_find sub s = Some j → str_find sub (take j s) = None.
Proof.
  intros Hne [Hocc Hmin]%str_find_Some. apply str_find_None. intros k Hk.
  pose proof (occurs_at_bound _ _ _ Hne Hk) as Hbound. rewrite length_take in Hbound.
  destruct sub as [|c sub]; [done|]. simpl in Hbound.
  apply (Hmin k); [lia|]. destruct Hk as [t Ht]. exists (t ++ drop j s).
  rewrite <- (take_drop j s) at 1. rewrite drop_app_le by (rewrite length_take; lia).
  by rewrite Ht, <- app_assoc.
Qed.

(** X2: the docstring that extract_docstring returns holds no delimiter. *)
Theorem extract_docstring_holds_no_delimiter (script_text docstring : text) :
  extract_docstring script_text = Ok docstring →
  str_find DELIMITER docstring = None.
Proof.
  unfold extract_docstring.
  destruct (str_find DELIMITER script_text) as [i|] eqn:F; last first.
  { by rewrite str_split_not_found. }
  rewrite (split_DELIMITER_found script_text i) by done.
  destruct (str_find DELIMITER (drop (i + 3) script_text)) as [j|] eqn:G.
  - rewrite (split_DELIMITER_found _ j) by done. intros [= <-].
    by apply str_find_None_take; [apply DELIMITER_nonempty|].
  - rewrite str_split_not_found by done. by intros [= <-].
Qed.

Lemma extract_docstring_holds_no_delimiter_witness :
  extract_docstring sample_source
    = Ok (txt " A `PushButton` demo." ++ [LF; LF] ++ MARKER ++ [LF; LF])
  ∧ str_find DELIMITER (txt " A `PushButton` demo." ++ [LF; LF] ++ MARKER ++ [LF; LF]) = None.
Proof.
  assert (H : extract_docstring sample_source
              = Ok (txt " A `PushButton` demo." ++ [LF; LF] ++ MARKER ++ [LF; LF]))
    by (vm_compute; reflexivity).
  split; [exact H | exact (extract_docstring_holds_no_delimiter _ _ H)].
Defined.

(** ** clean_docstring: the ends, the marker line, a second pass *)

Lemma re_sub_nil : re_sub [] = [].
Proof. by rewrite re_sub_equation_1. Qed.

Lemma re_sub_head s : head (re_sub s) = head s.
Proof.
  destruct s as [|c s]; [by rewrite re_sub_nil|].
  destruct (match_identifier (c :: s)) as [[id rest]|] eqn:E.
  - rewrite (re_sub_match _ _ _ _ E). by apply match_identifier_Some in E as [[= -> _] _].
  - by rewrite re_sub_no_match.
Qed.

Lemma re_sub_last s : last (re_sub s) = last s.
Proof.
  induction s as [s IH] using (induction_ltof1 _ length). unfold ltof in IH.
  destruct s as [|c s]; [by rewrite re_sub_nil|].
  destruct (match_identifier (c :: s)) as [[id rest]|] eqn:E.
  - rewrite (re_sub_match _ _ _ _ E). apply match_identifier_Some in E as [E _].
    rewrite E. unfold double_backquoted.
    rewrite !last_app, IH by (rewrite E; simpl; rewrite length_app; simpl; lia).
    change (BACKQUOTE :: id ++ BACKQUOTE :: rest) with ([BACKQUOTE] ++ id ++ [BACKQUOTE] ++ rest).
    rewrite !last_app. by destruct (last rest).
  - rewrite re_sub_no_match by done. rewrite !last_cons, IH by (simpl; lia). done.
Qed.

Lemma drop_while_head p s : from_option (λ c, negb (p c)) true (head (drop_while p s)) = true.
Proof. induction s as [|c s IH]; simpl; [done|]. destruct (p c) eqn:E; [done|]. simpl. by rewrite E. Qed.

Lemma str_lstrip_fixed s :
  str_lstrip s = s ↔ from_option (λ c, negb (is_space c)) true (head s) = true.
Proof.
  unfold str_lstrip. split.
  - intros <-. apply drop_while_head.
  - destruct s as [|c s]; [done|]. simpl. by intros ->%negb_true_iff.
Qed.

Lemma str_rstrip_fixed s :
  str_rstrip s = s ↔ from_option (λ c, negb (is_space c)) true (last s) = true.
Proof.
  unfold str_rstrip. rewrite <- (rev_involutive s) at 2 3.
  assert (last (rev (rev s)) = head (rev s)) as ->.
  { generalize (rev s). intros l. destruct l as [|c l]; [done|]. simpl. by rewrite last_snoc. }
  rewrite <- (str_lstrip_fixed (rev s)). unfold str_lstrip. split.
  - intros H. apply (f_equal (@rev ascii)) in H. by rewrite !rev_involutive in H.
  - by intros ->.
Qed.

Lemma str_strip_fixed s : str_strip s = s ↔ str_lstrip s = s ∧ str_rstrip s = s.
Proof.
  split.
  - intros H. assert (Hl : str_lstrip s = s).
    { rewrite <- H. unfold str_strip. apply str_lstrip_rstrip, str_lstrip_idem. }
    split; [done|]. rewrite <- H at 1. unfold str_strip. by rewrite Hl, str_rstrip_idem, <- Hl at 1.
  - intros [Hl Hr]. unfold str_strip. by rewrite Hl.
Qed.

(** X3: what clean_docstring returns has no white space at either end:
    stripping it again changes nothing. *)
Theorem clean_docstring_is_stripped (docstring : text) :
  str_strip (clean_docstring docstring) = clean_docstring docstring.
Proof.
  unfold clean_docstring. set (z := str_strip (str_replace MARKER_LINE [] docstring)).
  assert (Hz : str_strip z = z) by apply str_strip_idem.
  apply str_strip_fixed in Hz as [Hl Hr]. apply str_strip_fixed. split.
  - apply str_lstrip_fixed. rewrite re_sub_head. by apply str_lstrip_fixed.
  - apply str_rstrip_fixed. rewrite re_sub_last. by apply str_rstrip_fixed.
Qed.

Lemma str_join_cons sep p q ps :
  str_join sep (p :: q :: ps) = p ++ sep ++ str_join sep (q :: ps).
Proof. done. Qed.

Lemma str_replace_found old new s i :
  old ≠ [] → str_find old s = Some i →
  str_replace old new s = take i s ++ new ++ str_replace old new (drop (i + length old) s).
Proof.
  intros Hne F. unfold str_replace. rewrite (str_split_found old s i) by done.
  destruct (str_split_head old (drop (i + length old) s)) as (p & ps & ->).
  apply str_join_cons.
Qed.

(** X4: a docstring that holds the marker line once, [before ++ MARKER_LINE
    ++ after], is cleaned as the text without that line: the line is cut out,
    the ends are stripped and the backquotes are doubled. *)
Theorem clean_docstring_removes_marker_line (before after : text) :
  str_find MARKER_LINE (before ++ MARKER_LINE ++ after) = Some (length before) →
  str_find MARKER_LINE after = None →
  clean_docstring (before ++ MARKER_LINE ++ after) = re_sub (str_strip (before ++ after)).
Proof.
  intros F G. unfold clean_docstring.
  rewrite (str_replace_found _ _ _ (length before)) by done.
  rewrite take_app_length, drop_app_add', drop_app_length by done.
  by rewrite str_replace_not_found.
Qed.

(** The docstring of the sample source. *)
Lemma clean_docstring_removes_marker_line_witness :
  str_find MARKER_LINE ((txt " A `PushButton` demo." ++ [LF; LF]) ++ MARKER_LINE ++ [LF])
    = Some (length (txt " A `PushButton` demo." ++ [LF; LF]))
  ∧ clean_docstring ((txt " A `PushButton` demo." ++ [LF; LF]) ++ MARKER_LINE ++ [LF])
    = txt "A ``PushButton`` demo.".
Proof.
  split; [vm_compute; reflexivity|].
  rewrite (clean_docstring_removes_marker_line (txt " A `PushButton` demo." ++ [LF; LF]) [LF]).
  - vm_compute. reflexivity.
  - vm_compute. reflexivity.
  - vm_compute. reflexivity.
Defined.

Lemma str_find_None_head c sub s : c ∉ s → str_find (c :: sub) s = None.
Proof.
  intros Hc. apply str_find_None. intros j [k Hk]. apply Hc.
  rewrite <- (take_drop j s), Hk. apply elem_of_app. right. left.
Qed.

Lemma is_identifier_chars id c :
  is_identifier id = true → c ∈ id → is_identifier_char c = true.
Proof.
  intros Hid Hc. assert (Hall : forallb is_identifier_char id = true) by by destruct id.
  rewrite forallb_forall in Hall. by apply Hall, list_elem_of_In.
Qed.

(** A text made of backquotes and identifier characters holds no marker
    line and has no white space to strip. *)
Lemma backquoted_text_plain s :
  (∀ c, c ∈ s → c = BACKQUOTE ∨ is_identifier_char c = true) →
  str_strip (str_replace MARKER_LINE [] s) = s.
Proof.
  intros Hs.
  assert (Hchar : ∀ c, c ∈ s → c ≠ chr 60 ∧ is_space c = false).
  { intros c [->|Hc]%Hs; [done|]. split; [by intros ->|].
    destruct c as [[] [] [] [] [] [] [] []]; done. }
  rewrite str_replace_not_found; last first.
  { apply (str_find_None_head (chr 60)). intros Hin. by destruct (Hchar _ Hin). }
  apply str_strip_fixed. split.
  - apply str_lstrip_fixed. destruct s as [|c s]; [done|]. simpl.
    apply negb_true_iff, Hchar. left.
  - apply str_rstrip_fixed. destruct (last s) as [c|] eqn:E; [|done]. simpl.
    apply negb_true_iff, Hchar. apply last_Some in E as [l ->].
    apply elem_of_app. right. left.
Qed.

(** X5: clean_docstring is not idempotent on a backquoted identifier: the
    first pass doubles its backquotes, and a second pass finds the pattern
    again inside the doubled form and wraps it in a third pair. *)
Theorem clean_docstring_twice_on_identifier (id : text) :
  is_identifier id = true →
  clean_docstring (single_backquoted id) = double_backquoted id
  ∧ clean_docstring (double_backquoted id)
    = BACKQUOTE :: double_backquoted id ++ [BACKQUOTE].
Proof.
  intros Hid. unfold clean_docstring. split.
  - rewrite backquoted_text_plain.
    + pose proof (re_sub_first_token [] id [] eq_refl Hid) as H.
      by rewrite !app_nil_l, re_sub_nil, !app_nil_r in H.
    + unfold single_backquoted. intros c [->|[Hc| ->%list_elem_of_singleton]%elem_of_app]%elem_of_cons;
        [by left | right; by eapply is_identifier_chars | by left].
  - rewrite backquoted_text_plain.
    + assert (Hd : double_backquoted id
                   = [BACKQUOTE] ++ single_backquoted id ++ [BACKQUOTE]).
      { unfold double_backquoted, single_backquoted. simpl. by rewrite <- app_assoc. }
      rewrite Hd at 1.
      rewrite (re_sub_first_token [BACKQUOTE] id [BACKQUOTE] eq_refl Hid).
      by rewrite (re_sub_no_occurrence [BACKQUOTE]).
    + unfold double_backquoted. intros c Hc. repeat setoid_rewrite elem_of_app in Hc.
      repeat setoid_rewrite elem_of_cons in Hc.
      destruct Hc as [[->|[->|?%elem_of_nil]]|[Hc|[->|[->|?%elem_of_nil]]]];
        try done; try (by left). right. by eapply is_identifier_chars.
Qed.

Lemma clean_docstring_twice_on_identifier_witness :
  clean_docstring (txt "`Window`") = txt "``Window``"
  ∧ clean_docstring (txt "``Window``") = txt "```Window```".
Proof. apply (clean_docstring_twice_on_identifier (txt "Window")). reflexivity. Defined.

(** X6: clean_docstring adds backquotes and nothing else: once the marker
    line is removed and the ends are stripped, the characters other than
    backquotes are kept, in their order. *)
Theorem clean_docstring_only_adds_backquotes (docstring : text) :
  filter (λ c, c ≠ BACKQUOTE) (clean_docstring docstring)
  = filter (λ c, c ≠ BACKQUOTE) (str_strip (str_replace MARKER_LINE [] docstring)).
Proof.
  unfold clean_docstring. generalize (str_strip (str_replace MARKER_LINE [] docstring)).
  intros s. induction s as [s IH] using (induction_ltof1 _ length). unfold ltof in IH.
  destruct s as [|c s]; [by rewrite re_sub_nil|].
  destruct (match_identifier (c :: s)) as [[id rest]|] eqn:E.
  - rewrite (re_sub_match _ _ _ _ E). apply match_identifier_Some in E as [E _].
    rewrite E. unfold double_backquoted.
    change (BACKQUOTE :: id ++ BACKQUOTE :: rest) with ([BACKQUOTE] ++ id ++ [BACKQUOTE] ++ rest).
    rewrite !filter_app, IH by (rewrite E; simpl; rewrite length_app; simpl; lia).
    rewrite !filter_cons_False, !filter_nil by (by intros H; apply H).
    by rewrite app_nil_r.
  - rewrite re_sub_no_match by done. rewrite !filter_cons, IH by (simpl; lia). done.
Qed.

(** * Further properties of generate_example_doc *)

Section GenerateFurther.

Variable snapshot : text → text → Run unit.

(** X7: when the capability returns, the cache directory is there to be
    removed, the example can be read and its text holds a delimiter,
    generate_example_doc writes the document with the screenshot block that
    names the image [ex_<name>.png], and puts the search path back. The
    statement gives the bytes of the document, so it is made for an example
    whose bytes and whose path are plain ASCII: there the decoding of the
    file, the stripping, the title of the name and the encoding of the
    document are those of the model under every ASCII-compatible encoding. *)
Theorem taken_snapshot_is_referenced
    (docs_path script_path : text) (w : World) w1 data docstring :
  snapshot (script_name script_path) (image_path docs_path script_path)
      (entering script_path w) = (Ok tt, w1) →
  enaml_cache_dir script_path ∈ dirs w1 →
  files (without_tree (enaml_cache_dir script_path) w1) !! script_path = Some data →
  is_ascii data = true →
  is_ascii script_path = true →
  extract_docstring (universal_newlines data) = Ok docstring →
  generate_example_doc snapshot docs_path script_path w
  = (Ok tt,
     with_file (rst_path docs_path script_path)
       (str_lstrip
          (EXAMPLE_DOC_RST_TEMPLATE (script_title script_path) (script_name script_path)
             (relative_script_path script_path) (clean_docstring docstring)
             (SCREENSHOT_RST_TEMPLATE (txt "ex_" ++ script_name script_path ++ txt ".png"))))
       (with_sys_path (sys_path w) (without_tree (enaml_cache_dir script_path) w1))).
Proof.
  intros Hs Hd Hf _ _ He.
  rewrite (generate_example_doc_cache_present snapshot _ _ _ true w1);
    [|by apply attempted_returns|done].
  cbv zeta. cbn [files with_sys_path without_tree] in *.
  by rewrite Hf, He.
Qed.

(** X8: an example file that cannot be opened once the snapshot step is
    over (the try statement came to a flag, [Ok ok], so the open is reached)
    makes generate_example_doc raise FileNotFoundError for it: the cache
    is removed and the search path is back by then, and no document is
    written. *)
Theorem unreadable_example_raises (docs_path script_path : text) (w : World) ok w1 :
  attempted snapshot docs_path script_path (entering script_path w) = (Ok ok, w1) →
  enaml_cache_dir script_path ∈ dirs w1 →
  files (without_tree (enaml_cache_dir script_path) w1) !! script_path = None →
  generate_example_doc snapshot docs_path script_path w
  = (Raise (FileNotFoundError script_path),
     with_sys_path (sys_path w) (without_tree (enaml_cache_dir script_path) w1)).
Proof.
  intros Ha Hd Hf.
  rewrite (generate_example_doc_cache_present snapshot _ _ _ ok w1) by done.
  cbv zeta. cbn [files with_sys_path without_tree] in *. by rewrite Hf.
Qed.

(** The files of a world without a tree: those that do not lie below it. *)
Lemma without_tree_lookup d w q :
  files (without_tree d w) !! q = if below d q then None else files w !! q.
Proof.
  cbn [files without_tree]. destruct (below d q) eqn:E.
  - apply map_lookup_filter_None_2. right. intros x _ Hx. apply Hx. cbn. by rewrite E.
  - destruct (files w !! q) as [x|] eqn:F.
    + apply map_lookup_filter_Some_2; [done|]. cbn [fst]. rewrite E. exact id.
    + apply map_lookup_filter_None_2. by left.
Qed.

(** The files that generate_example_doc leaves, read off the world that the
    try statement reached. *)
Lemma generate_example_doc_files docs_path script_path w tried w1 r w' q :
  attempted snapshot docs_path script_path (entering script_path w) = (tried, w1) →
  generate_example_doc snapshot docs_path script_path w = (r, w') →
  q ≠ rst_path docs_path script_path →
  files w' !! q
  = if bool_decide (enaml_cache_dir script_path ∈ dirs w1)
         && below (enaml_cache_dir script_path) q
    then None else files w1 !! q.
Proof.
  intros Ha Hgen Hq. case_bool_decide as Hd.
  - cbn [andb]. rewrite <- (without_tree_lookup (enaml_cache_dir script_path) w1 q).
    destruct tried as [ok|e].
    + rewrite (generate_example_doc_cache_present snapshot _ _ _ ok w1) in Hgen by done.
      cbv zeta in Hgen.
      set (w2 := without_tree (enaml_cache_dir script_path) w1) in *.
      cbn [files with_sys_path] in Hgen.
      destruct (files w2 !! script_path) as [data|]; [|by injection Hgen as _ <-].
      destruct (extract_docstring _); injection Hgen as _ <-; [|done].
      cbn [files with_file with_sys_path]. by rewrite lookup_insert_ne.
    + rewrite (generate_example_doc_escapes snapshot _ _ _ e w1) in Hgen by done.
      by injection Hgen as _ <-.
  - rewrite (generate_example_doc_cache_absent snapshot _ _ _ tried w1) in Hgen by done.
    by injection Hgen as _ <-.
Qed.

(** X10: apart from what the capability does, generate_example_doc touches
    two places only: every file other than the document and outside the
    cache directory holds, at the end, the bytes it held when the try
    statement was over, whatever the outcome. *)
Theorem other_files_are_kept (docs_path script_path : text) (w : World) tried w1 r w' q :
  attempted snapshot docs_path script_path (entering script_path w) = (tried, w1) →
  generate_example_doc snapshot docs_path script_path w = (r, w') →
  q ≠ rst_path docs_path script_path →
  below (enaml_cache_dir script_path) q = false →
  files w' !! q = files w1 !! q.
Proof.
  intros Ha Hgen Hq Hb.
  rewrite (generate_example_doc_files _ _ _ _ _ _ _ _ Ha Hgen Hq), Hb.
  by rewrite andb_false_r.
Qed.

(** X11: when the cache directory is there at the end of the try statement,
    it is gone when generate_example_doc is left, whatever the outcome, and
    so is every file below it (unless the document itself is written
    there). *)
Theorem cache_is_removed (docs_path script_path : text) (w : World) tried w1 r w' :
  attempted snapshot docs_path script_path (entering script_path w) = (tried, w1) →
  enaml_cache_dir script_path ∈ dirs w1 →
  generate_example_doc snapshot docs_path script_path w = (r, w') →
  (enaml_cache_dir script_path ∉ dirs w')
  ∧ ∀ q, below (enaml_cache_dir script_path) q = true →
         q ≠ rst_path docs_path script_path → files w' !! q = None.
Proof.
  intros Ha Hd Hgen. split.
  - assert (dirs w' = dirs (without_tree (enaml_cache_dir script_path) w1)) as ->.
    { destruct tried as [ok|e].
      - rewrite (generate_example_doc_cache_present snapshot _ _ _ ok w1) in Hgen by done.
        cbv zeta in Hgen.
        destruct (files _ !! script_path) as [data|]; [|by injection Hgen as _ <-].
        by destruct (extract_docstring _); injection Hgen as _ <-.
      - rewrite (generate_example_doc_escapes snapshot _ _ _ e w1) in Hgen by done.
        by injection Hgen as _ <-. }
    cbn [dirs without_tree]. rewrite elem_of_filter. by intros [[? _] _].
  - intros q Hb Hq.
    rewrite (generate_example_doc_files _ _ _ _ _ _ _ _ Ha Hgen Hq), Hb.
    by rewrite bool_decide_eq_true_2.
Qed.

End GenerateFurther.

(** The sample example with a capability that saves the image. *)
Lemma taken_snapshot_is_referenced_witness :
  fst (generate_example_doc snapshot_succeeds sample_docs_path sample_script_path
         world_with_cache) = Ok tt
  ∧ (files (snd (generate_example_doc snapshot_succeeds sample_docs_path sample_script_path
                   world_with_cache)))
      !! (txt "/repo/docs/source/examples/ex_push_button.rst")
    = Some (str_lstrip
              (EXAMPLE_DOC_RST_TEMPLATE (txt "Push Button") (txt "push_button")
                 (txt "examples/widgets/push_button.enaml")
                 (txt "A ``PushButton`` demo.")
                 (SCREENSHOT_RST_TEMPLATE (txt "ex_push_button.png"))))
  ∧ sys_path (snd (generate_example_doc snapshot_succeeds sample_docs_path
                     sample_script_path world_with_cache))
    = sys_path world_with_cache.
Proof.
  rewrite (taken_snapshot_is_referenced snapshot_succeeds
             sample_docs_path sample_script_path world_with_cache
             (with_file (image_path sample_docs_path sample_script_path) (txt "PNG")
                (entering sample_script_path world_with_cache))
             sample_source (txt " A `PushButton` demo." ++ [LF; LF] ++ MARKER ++ [LF; LF])).
  - split; [reflexivity|]. split; [vm_compute; reflexivity | reflexivity].
  - reflexivity.
  - apply (bool_decide_unpack _). vm_compute. exact I.
  - vm_compute. reflexivity.
  - vm_compute. reflexivity.
  - vm_compute. reflexivity.
  - vm_compute. reflexivity.
Defined.

(** The example is gone from the disk. *)
Lemma unreadable_example_raises_witness :
  files world_missing_example !! sample_script_path = None
  ∧ fst (generate_example_doc snapshot_fails sample_docs_path sample_script_path
           world_missing_example) = Raise (FileNotFoundError sample_script_path)
  ∧ sys_path (snd (generate_example_doc snapshot_fails sample_docs_path sample_script_path
                     world_missing_example)) = [txt "/usr/lib/python3"].
Proof.
  split; [vm_compute; reflexivity|].
  rewrite (unreadable_example_raises snapshot_fails sample_docs_path sample_script_path
             world_missing_example false
             (reported sample_script_path (Exception (txt "No module named matplotlib"))
                (entering sample_script_path world_missing_example))).
  - split; reflexivity.
  - reflexivity.
  - apply (bool_decide_unpack _). vm_compute. exact I.
  - vm_compute. reflexivity.
Defined.

(** An example that calls [sys.exit] while it is imported: SystemExit leaves
    generate_example_doc, nothing is reported, and the directory of the
    example stays on the search path. *)
Lemma sys_path_kept_when_exception_passes_sample :
  generate_example_doc snapshot_exits sample_docs_path sample_script_path world_with_cache
    = (Raise (SystemExit (txt "0")),
       without_tree sample_cache_dir (entering sample_script_path world_with_cache))
  ∧ sys_path (snd (generate_example_doc snapshot_exits sample_docs_path sample_script_path
                     world_with_cache))
    = [txt "/usr/lib/python3"; txt "/repo/examples/widgets"].
Proof.
  split.
  - apply generate_example_doc_escapes; [reflexivity|].
    apply (bool_decide_unpack _). vm_compute. exact I.
  - destruct (sys_path_kept_when_exception_passes snapshot_exits sample_docs_path
                sample_script_path world_with_cache (SystemExit (txt "0"))
                (entering sample_script_path world_with_cache)) as [_ ->];
      [reflexivity | reflexivity | apply (bool_decide_unpack _); vm_compute; exact I |].
    reflexivity.
Qed.

(** The capability empties the search path; it is back after the run. *)
Lemma sys_path_restored_when_cleanup_succeeds_witness :
  sys_path (snd (snapshot_clears_path (script_name sample_script_path)
                   (image_path sample_docs_path sample_script_path)
                   (entering sample_script_path world_with_cache))) = []
  ∧ sys_path (snd (generate_example_doc snapshot_clears_path sample_docs_path
                     sample_script_path world_with_cache))
    = [txt "/usr/lib/python3"].
Proof.
  split; [reflexivity|].
  refine (sys_path_restored_when_cleanup_succeeds snapshot_clears_path
            sample_docs_path sample_script_path world_with_cache true
            (with_sys_path [] (entering sample_script_path world_with_cache)) _ _).
  - reflexivity.
  - apply (bool_decide_unpack _). vm_compute. exact I.
Defined.

(** The example file itself is kept by a run that writes the document. *)
Lemma other_files_are_kept_witness :
  fst (generate_example_doc snapshot_fails sample_docs_path sample_script_path
         world_with_cache) = Ok tt
  ∧ (files (snd (generate_example_doc snapshot_fails sample_docs_path sample_script_path
                   world_with_cache))) !! sample_script_path
    = Some sample_source.
Proof.
  split; [vm_compute; reflexivity|].
  rewrite (other_files_are_kept snapshot_fails sample_docs_path sample_script_path
             world_with_cache (Ok false)
             (reported sample_script_path (Exception (txt "No module named matplotlib"))
                (entering sample_script_path world_with_cache))
             (fst (generate_example_doc snapshot_fails sample_docs_path sample_script_path
                     world_with_cache))
             (snd (generate_example_doc snapshot_fails sample_docs_path sample_script_path
                     world_with_cache))
             sample_script_path).
  - vm_compute. reflexivity.
  - reflexivity.
  - by destruct (generate_example_doc _ _ _ _).
  - apply (bool_decide_unpack _). vm_compute. exact I.
  - vm_compute. reflexivity.
Defined.

(** The compiled example in the cache is removed with the directory. *)
Lemma cache_is_removed_witness :
  sample_cache_dir ∈ dirs world_with_cache_file
  ∧ files world_with_cache_file !! sample_cache_file = Some (txt "cached")
  ∧ (sample_cache_dir ∉ dirs (snd (generate_example_doc snapshot_fails sample_docs_path
                                     sample_script_path world_with_cache_file)))
  ∧ (files (snd (generate_example_doc snapshot_fails sample_docs_path sample_script_path
                   world_with_cache_file))) !! sample_cache_file = None.
Proof.
  assert (Hd : sample_cache_dir ∈ dirs world_with_cache_file)
    by (apply (bool_decide_unpack _); vm_compute; exact I).
  split; [exact Hd|]. split; [vm_compute; reflexivity|].
  destruct (cache_is_removed snapshot_fails sample_docs_path sample_script_path
              world_with_cache_file (Ok false)
              (reported sample_script_path (Exception (txt "No module named matplotlib"))
                 (entering sample_script_path world_with_cache_file))
              (fst (generate_example_doc snapshot_fails sample_docs_path sample_script_path
                      world_with_cache_file))
              (snd (generate_example_doc snapshot_fails sample_docs_path sample_script_path
                      world_with_cache_file)))
    as [Hgone Hfiles].
  - reflexivity.
  - exact Hd.
  - by destruct (generate_example_doc _ _ _ _).
  - split; [exact Hgone|]. apply Hfiles.
    + vm_compute. reflexivity.
    + apply (bool_decide_unpack _). vm_compute. exact I.
Defined.

(** * Further properties of the walk of main *)

Lemma join_step_suffix path b : b `suffix_of` os_path.join_step path b.
Proof.
  unfold os_path.join_step. destruct (startswith b [SLASH]); [done|].
  destruct (_ || _).
  - by exists path.
  - exists (path ++ [SLASH]). by rewrite <- app_assoc.
Qed.

Lemma filter_sublist_mono {A} (P : A → Prop) `{!∀ x, Decision (P x)} (l1 l2 : list A) :
  l1 `sublist_of` l2 → filter P l1 `sublist_of` filter P l2.
Proof.
  induction 1 as [|x l1 l2 _ IH|x l1 l2 _ IH]; [done| |].
  - rewrite !filter_cons. destruct (decide (P x)); [by constructor | done].
  - rewrite filter_cons. destruct (decide (P x)); [by constructor | done].
Qed.

Lemma candidates_sublist white_list dirname filenames :
  candidates white_list dirname filenames `sublist_of` candidates [] dirname filenames.
Proof.
  unfold candidates. destruct white_list; [done|]. apply sublist_filter.
Qed.

Lemma all_candidates_sublist white_list walk :
  all_candidates white_list walk `sublist_of` all_candidates [] walk.
Proof.
  unfold all_candidates.
  induction walk as [|[[dirname dirnames] filenames] walk IH]; [done|].
  rewrite !fmap_cons. cbn [concat].
  apply sublist_app; [apply candidates_sublist | done].
Qed.

(** X12: an allow-list only narrows the selection: the examples selected
    with an allow-list are selected without it too, and come in the same
    order. *)
Theorem allow_list_narrows
    (white_list : list text) (walk : list (text * list text * list text)) (w : World) :
  discover white_list walk w `sublist_of` discover [] walk w.
Proof.
  unfold discover. fold (all_candidates white_list walk). fold (all_candidates [] walk).
  apply filter_sublist_mono, all_candidates_sublist.
Qed.

(** X13: every path that main selects ends in [.enaml], whatever the
    directory names of the walk. *)
Theorem discovered_paths_end_in_enaml
    (white_list : list text) (walk : list (text * list text * list text))
    (w : World) (p : text) :
  p ∈ discover white_list walk w → txt ".enaml" `suffix_of` p.
Proof.
  unfold discover. fold (all_candidates white_list walk).
  intros [_ Hp]%list_elem_of_filter.
  apply elem_of_concat in Hp as (cands & Hp & Hc).
  apply list_elem_of_fmap in Hc as ([[dirname dirnames] filenames] & -> & _).
  apply elem_of_candidates in Hp as (f & _ & -> & Hext%endswith_true & _).
  etrans; [exact Hext|]. unfold os_path.join. cbn [foldl]. apply join_step_suffix.
Qed.

Lemma discovered_paths_end_in_enaml_witness :
  second_script_path ∈ discover [txt "slider.enaml"] three_examples_walk three_examples_world
  ∧ txt ".enaml" `suffix_of` second_script_path.
Proof.
  assert (H : second_script_path
              ∈ discover [txt "slider.enaml"] three_examples_walk three_examples_world).
  { apply (bool_decide_unpack _). vm_compute. exact I. }
  split; [exact H | exact (discovered_paths_end_in_enaml _ _ _ _ H)].
Defined.

(** The run of main, with the condition on the generation asked of the
    candidates of the walk only. *)
Section MainGenerates.

Variable snapshot : text → text → Run unit.
Variables (white_list : list text) (docs_path : text).
Variable walk : list (text * list text * list text).
Variable w0 : World.

Hypothesis candidates_exist :
  ∀ q, q ∈ all_candidates white_list walk → is_Some (files w0 !! q).

Hypothesis candidates_kept : ∀ p w w',
  p ∈ all_candidates white_list walk →
  generate_example_doc snapshot docs_path p w = (Ok tt, w') →
  ∀ q, q ∈ all_candidates white_list walk → files w' !! q = files w !! q.

Lemma visit_some_candidates l w :
  l ⊆ all_candidates white_list walk → same_examples white_list walk w0 w →
  for_each (visit snapshot docs_path) l w
  = for_each (generate_example_doc snapshot docs_path) (filter (λ f, marked w0 f) l) w
  ∧ ∀ w', for_each (visit snapshot docs_path) l w = (Ok tt, w') →
          same_examples white_list walk w0 w'.
Proof.
  revert w. induction l as [|p l IH]; intros w Hl Hw.
  - split; [done|]. by intros w' [= <-].
  - assert (Hp : p ∈ all_candidates white_list walk) by (apply Hl; left).
    assert (Hl' : l ⊆ all_candidates white_list walk) by (intros q Hq; apply Hl; by right).
    rewrite for_each_cons, visit_unfold, (Hw p Hp).
    destruct (candidates_exist p Hp) as [data Hdata].
    assert (Hm : marked w0 p = has_marker data) by (unfold marked; by rewrite Hdata).
    rewrite Hdata.
    destruct (has_marker data) eqn:Hmark.
    + rewrite filter_cons_True by (by rewrite Hm). rewrite for_each_cons.
      destruct (generate_example_doc snapshot docs_path p w) as [[[]|e] w1] eqn:Hgen.
      * apply IH; [done|]. intros q Hq. rewrite <- (Hw q Hq).
        by apply (candidates_kept p w w1 Hp Hgen).
      * split; [done|]. by intros w' [=].
    + rewrite filter_cons_False by (rewrite Hm; exact id). by apply IH.
Qed.

(** X14: when the files that the walk lists are there, and the generation of
    one candidate leaves the bytes of all candidates alone, main does what
    generating the discovered examples one after the other does, with the
    same outcome and the same final world, errors included. *)
Theorem main_generates_discovered :
  main snapshot white_list docs_path walk w0
  = for_each (generate_example_doc snapshot docs_path) (discover white_list walk w0) w0.
Proof.
  unfold main, discover. fold (all_candidates white_list walk).
  assert (H : ∀ entries w,
    all_candidates white_list entries ⊆ all_candidates white_list walk →
    same_examples white_list walk w0 w →
    for_each (λ '(dirname, dirnames, filenames),
                for_each (visit snapshot docs_path)
                  (candidates white_list dirname filenames)) entries w
    = for_each (generate_example_doc snapshot docs_path)
        (filter (λ f, marked w0 f) (all_candidates white_list entries)) w).
  { induction entries as [|[[dirname dirnames] filenames] entries IH]; intros w Hsub Hw.
    - done.
    - unfold all_candidates in *. rewrite fmap_cons in *. cbn [concat] in *.
      rewrite filter_app, for_each_app, for_each_cons.
      destruct (visit_some_candidates (candidates white_list dirname filenames) w)
        as [Heq Hkeep];
        [by intros q Hq; apply Hsub, elem_of_app; left | done |].
      rewrite <- Heq.
      destruct (for_each (visit snapshot docs_path) _ w) as [[[]|e] w1]; [|done].
      apply IH; [by intros q Hq; apply Hsub, elem_of_app; right | by apply Hkeep]. }
  apply H; [done | by intros q Hq].
Qed.

End MainGenerates.

Lemma three_examples_candidates :
  all_candidates [] three_examples_walk
  = [ sample_script_path; second_script_path;
      txt "/repo/examples/widgets/notebook.enaml" ].
Proof. vm_compute. reflexivity. Qed.

(** The generation of one of the three examples, with the capability that
    imports well, keeps the bytes of the three. *)
Lemma three_examples_kept p w w' q :
  p ∈ all_candidates [] three_examples_walk →
  generate_example_doc snapshot_imports sample_docs_path p w = (Ok tt, w') →
  q ∈ all_candidates [] three_examples_walk →
  files w' !! q = files w !! q.
Proof.
  rewrite three_examples_candidates. intros Hp Hgen Hq.
  assert (Hfiles : ∀ img, img ≠ q →
            files (snd (snapshot_imports (script_name p) img (entering p w))) !! q
            = files w !! q).
  { intros img Himg. cbn. by rewrite lookup_insert_ne. }
  assert (Hrun := λ Hne, generate_example_doc_files snapshot_imports sample_docs_path p w (Ok true)
            (snd (snapshot_imports (script_name p) (image_path sample_docs_path p)
                    (entering p w)))
            (Ok tt) w' q eq_refl Hgen Hne).
  repeat (apply elem_of_cons in Hp as [->|Hp]); [| | |by apply elem_of_nil in Hp];
    (repeat (apply elem_of_cons in Hq as [->|Hq]); [| | |by apply elem_of_nil in Hq]);
    (rewrite Hrun by (apply (bool_decide_unpack _); vm_compute; exact I);
     match goal with
     | |- context [below ?d ?x] =>
         assert (below d x = false) as -> by (vm_compute; reflexivity)
     end;
     rewrite andb_false_r;
     apply Hfiles; apply (bool_decide_unpack _); vm_compute; exact I).
Qed.


(** Three examples, two of them marked, and a capability that imports well:
    main is the generation of the two, and both documents are written. *)
Lemma main_generates_discovered_witness :
  main snapshot_imports [] sample_docs_path three_examples_walk three_examples_world
  = for_each (generate_example_doc snapshot_imports sample_docs_path)
      [sample_script_path; second_script_path] three_examples_world
  ∧ fst (main snapshot_imports [] sample_docs_path three_examples_walk three_examples_world)
    = Ok tt.
Proof.
  assert (H : main snapshot_imports [] sample_docs_path three_examples_walk
                three_examples_world
              = for_each (generate_example_doc snapshot_imports sample_docs_path)
                  (discover [] three_examples_walk three_examples_world)
                  three_examples_world).
  { apply main_generates_discovered.
    - rewrite three_examples_candidates. intros q Hq.
      repeat (apply elem_of_cons in Hq as [->|Hq]); [| | |by apply elem_of_nil in Hq];
        by (vm_compute; eexists).
    - intros p w w' Hp Hgen q Hq. by apply (three_examples_kept p w w' q). }
  split.
  - rewrite H. f_equal.
  - vm_compute. reflexivity.
Defined.

(** * Further properties of the derived names *)

Lemma elem_of_str_find (c : ascii) (s : text) : c ∈ s → is_Some (str_find [c] s).
Proof.
  intros (l1 & l2 & ->)%list_elem_of_split.
  destruct (str_find_is_Some [c] (l1 ++ [c] ++ l2) (length l1)) as (j & Hj & _);
    [apply occurs_at_app | eauto].
Qed.

Lemma str_find_char_None (c : ascii) (s : text) : str_find [c] s = None → c ∉ s.
Proof. intros H Hc. apply elem_of_str_find in Hc as [i Hi]. congruence. Qed.

Lemma basename_no_sep p : SLASH ∉ os_path.basename p.
Proof.
  unfold os_path.basename. rewrite elem_of_rev. intros Hin.
  pose proof (take_while_forallb os_path.not_sep (rev p)) as Hall.
  rewrite forallb_forall in Hall. apply list_elem_of_In, Hall in Hin. done.
Qed.

Lemma elem_of_slice_to (c : ascii) i (s : text) : c ∈ slice_to i s → c ∈ s.
Proof.
  unfold slice_to. intros Hc. rewrite <- (take_drop (slice_index i s) s).
  apply elem_of_app. by left.
Qed.

(** X15: the base name is a single path component, and it holds no dot as
    soon as the file name holds one: it can be used as a module name and
    [ex_<name>.rst] lies directly in the documents directory. *)
Theorem script_name_is_one_component (script_path : text) :
  (SLASH ∉ script_name script_path)
  ∧ (DOT ∈ os_path.basename script_path → DOT ∉ script_name script_path).
Proof.
  unfold script_name. split.
  - intros Hc%elem_of_slice_to. by apply basename_no_sep in Hc.
  - intros [i Hi]%elem_of_str_find. unfold str_find_z, slice_to, slice_index.
    rewrite Hi. assert ((Z.of_nat i <? 0)%Z = false) as -> by (apply Z.ltb_ge; lia).
    rewrite Nat2Z.id. apply str_find_char_None. by apply str_find_None_take.
Qed.

(** X16: a file name without a dot loses its last character: [find] returns
    -1 and the slice [[:-1]] drops one character. *)
Theorem script_name_without_dot (dir file_name : text) :
  SLASH ∉ file_name → DOT ∉ file_name →
  script_name (dir ++ SLASH :: file_name) = take (length file_name - 1) file_name.
Proof.
  intros Hs Hd. unfold script_name. rewrite basename_after_sep by done.
  unfold str_find_z, slice_to, slice_index.
  rewrite (str_find_None_head DOT [] file_name Hd). cbn [Z.ltb Z.compare].
  f_equal. lia.
Qed.

Lemma script_name_without_dot_witness :
  script_name (txt "/repo/examples/README") = txt "READM".
Proof.
  apply (script_name_without_dot (txt "/repo/examples") (txt "README"));
    apply (bool_decide_unpack _); vm_compute; exact I.
Defined.

Lemma str_replace_char (c d : ascii) (s : text) :
  str_replace [c] [d] s = (λ x, if bool_decide (x = c) then d else x) <$> s.
Proof.
  induction s as [|x s IH].
  - by rewrite str_replace_not_found.
  - rewrite fmap_cons, <- IH. cbn [str_find] in *.
    destruct (decide (x = c)) as [->|Hx].
    + rewrite (str_replace_found [c] [d] (c :: s) 0); [|done|].
      * by rewrite bool_decide_eq_true_2.
      * cbn [str_find]. assert (startswith (c :: s) [c] = true) as ->; [|done].
        apply startswith_true. by exists s.
    + rewrite bool_decide_eq_false_2 by done.
      assert (Hstart : startswith (x :: s) [c] = false).
      { apply startswith_false. intros [k [= ]]. done. }
      destruct (str_find [c] s) as [i|] eqn:F.
      * rewrite (str_replace_found [c] [d] (x :: s) (S i)); [|done|].
        -- rewrite (str_replace_found [c] [d] s i) by done. done.
        -- cbn [str_find]. by rewrite Hstart, F.
      * rewrite (str_replace_not_found [c] [d] (x :: s)).
        -- by rewrite (str_replace_not_found [c] [d] s).
        -- cbn [str_find]. by rewrite Hstart, F.
Qed.

Lemma relative_script_path_slashed p :
  relative_script_path p
  = slashed (slice_from (str_find_z (txt "examples") p) p).
Proof. unfold relative_script_path, slashed. apply str_replace_char. Qed.

(** X17: when the path holds [examples], the relative path starts at its
    first occurrence: it is [examples] followed by the rest of the path, with
    every backslash turned into a slash. *)
Theorem relative_script_path_from_examples (script_path : text) (i : nat) :
  str_find (txt "examples") script_path = Some i →
  relative_script_path script_path
  = txt "examples" ++ slashed (drop (i + 8) script_path).
Proof.
  intros F. rewrite relative_script_path_slashed.
  unfold str_find_z, slice_from, slice_index. rewrite F.
  assert ((Z.of_nat i <? 0)%Z = false) as -> by (apply Z.ltb_ge; lia).
  rewrite Nat2Z.id. apply str_find_Some in F as [[k Hk] _].
  rewrite <- drop_drop, Hk. unfold slashed. by rewrite fmap_app.
Qed.

(** A path as Windows writes it. *)
Lemma relative_script_path_from_examples_witness :
  str_find (txt "examples") (txt "C:\enaml\examples\widgets\slider.enaml") = Some 9
  ∧ relative_script_path (txt "C:\enaml\examples\widgets\slider.enaml")
    = txt "examples/widgets/slider.enaml".
Proof.
  assert (H : str_find (txt "examples") (txt "C:\enaml\examples\widgets\slider.enaml")
              = Some 9) by (vm_compute; reflexivity).
  split; [exact H|]. rewrite (relative_script_path_from_examples _ 9 H).
  vm_compute. reflexivity.
Defined.

(** X18: the relative path never holds a backslash: each of its characters
    is another one. *)
Theorem relative_script_path_has_no_backslash (script_path : text) :
  Forall (λ c, c ≠ BACKSLASH) (relative_script_path script_path).
Proof.
  rewrite relative_script_path_slashed. unfold slashed.
  apply Forall_fmap, Forall_true. intros c. cbn. by case_bool_decide.
Qed.

(** X19: a path that does not hold [examples] gives its last character as
    the relative path: [find] returns -1 and the slice [[-1:]] keeps one
    character. *)
Theorem relative_script_path_without_examples (script_path : text) :
  str_find (txt "examples") script_path = None →
  relative_script_path script_path
  = slashed (drop (length script_path - 1) script_path).
Proof.
  intros F. rewrite relative_script_path_slashed.
  unfold str_find_z, slice_from, slice_index. rewrite F. cbn [Z.ltb Z.compare].
  do 2 f_equal. lia.
Qed.

Lemma relative_script_path_without_examples_witness :
  str_find (txt "examples") (txt "/repo/demos/slider.enaml") = None
  ∧ relative_script_path (txt "/repo/demos/slider.enaml") = txt "l".
Proof.
  assert (H : str_find (txt "examples") (txt "/repo/demos/slider.enaml") = None)
    by (vm_compute; reflexivity).
  split; [exact H|]. rewrite (relative_script_path_without_examples _ H).
  vm_compute. reflexivity.
Defined.

(** * Further properties of the title and of the templates *)

Lemma case_mapping_keeps_others (c : ascii) :
  c ≠ UNDERSCORE → to_upper c ≠ UNDERSCORE ∧ to_lower c ≠ UNDERSCORE.
Proof. destruct c as [[] [] [] [] [] [] [] []]; intros H; split; done. Qed.

Lemma title_from_length b s : length (title_from b s) = length s.
Proof. revert b. induction s as [|c s IH]; intros b; simpl; [done|]. by rewrite IH. Qed.

Lemma title_from_no_underscore b s : UNDERSCORE ∉ s → UNDERSCORE ∉ title_from b s.
Proof.
  revert b. induction s as [|c s IH]; intros b Hs; simpl; [by intros ?%elem_of_nil|].
  assert (Hc : c ≠ UNDERSCORE) by (intros ->; apply Hs; left).
  destruct (case_mapping_keeps_others c Hc) as [Hu Hl].
  intros [Hin|Hin]%elem_of_cons.
  - by destruct b.
  - apply (IH (is_alpha c)); [|done]. intros ?. apply Hs. by right.
Qed.

(** The case mapping works character by character. *)
Lemma title_from_lookup b s i c :
  s !! i = Some c →
  title_from b s !! i = Some (to_lower c) ∨ title_from b s !! i = Some (to_upper c).
Proof.
  revert b i. induction s as [|x s IH]; intros b i; [done|].
  destruct i as [|i]; simpl.
  - intros [= ->]. destruct b; auto.
  - apply IH.
Qed.

Lemma case_mapping_keeps_non_letters (c : ascii) :
  is_alpha c = false → to_lower c = c ∧ to_upper c = c.
Proof.
  unfold is_alpha, to_lower, to_upper. intros [Hu Hl]%orb_false_elim.
  by rewrite Hu, Hl.
Qed.

(** X20: for a base name of plain ASCII characters (where [str.title] maps
    character by character, as the model does), the title has as many
    characters as the base name and holds no underscore; at the place of each
    underscore of the name it holds a blank, and every other character that
    is not a letter stands in the title as it is. *)
Theorem script_title_has_no_underscore (script_path : text) :
  is_ascii (script_name script_path) = true →
  length (script_title script_path) = length (script_name script_path)
  ∧ (UNDERSCORE ∉ script_title script_path)
  ∧ (∀ i, script_name script_path !! i = Some UNDERSCORE →
          script_title script_path !! i = Some SPACE)
  ∧ (∀ i c, script_name script_path !! i = Some c →
            c ≠ UNDERSCORE → is_alpha c = false →
            script_title script_path !! i = Some c).
Proof.
  intros _. unfold script_title, str_title. rewrite str_replace_char.
  split; [|split; [|split]].
  - by rewrite title_from_length, length_fmap.
  - apply title_from_no_underscore.
    intros (c & Hc & _)%list_elem_of_fmap. by case_bool_decide.
  - intros i Hi.
    destruct (title_from_lookup false
                ((λ c, if bool_decide (c = UNDERSCORE) then SPACE else c)
                   <$> script_name script_path) i SPACE) as [H|H]; [|done|done].
    rewrite list_lookup_fmap, Hi. cbn. by rewrite bool_decide_eq_true_2.
  - intros i c Hi Hc Ha.
    destruct (case_mapping_keeps_non_letters c Ha) as [Hl Hu].
    destruct (title_from_lookup false
                ((λ c, if bool_decide (c = UNDERSCORE) then SPACE else c)
                   <$> script_name script_path) i c) as [H|H].
    + rewrite list_lookup_fmap, Hi. cbn. by rewrite bool_decide_eq_false_2.
    + by rewrite H, Hl.
    + by rewrite H, Hu.
Qed.

(** The title of [push_button.enaml]. *)
Lemma script_title_has_no_underscore_witness :
  script_name sample_script_path = txt "push_button"
  ∧ script_title sample_script_path = txt "Push Button"
  ∧ script_title sample_script_path !! 4 = Some SPACE.
Proof.
  split; [vm_compute; reflexivity|]. split; [vm_compute; reflexivity|].
  destruct (script_title_has_no_underscore sample_script_path) as (_ & _ & H & _);
    [vm_compute; reflexivity|].
  apply H. vm_compute. reflexivity.
Defined.

Lemma lines_app l1 l2 : lines (l1 ++ l2) = lines l1 ++ lines l2.
Proof. unfold lines. by rewrite fmap_app, concat_app. Qed.

Lemma lines_cons l ls : lines (l :: ls) = l ++ LF :: lines ls.
Proof. unfold lines. rewrite fmap_cons. cbn [concat]. by rewrite <- app_assoc. Qed.

(** X21: whatever the fields, the bytes written start with the comment that
    tells that the file is generated: the empty first line of the template is
    stripped and nothing of a field comes before the notice. *)
Theorem document_starts_with_notice (title name path docstring_rst screenshot_rst : text) :
  txt ".." ++ LF :: txt "  NOTE: This RST file was generated by `make examples`." ++ [LF]
    `prefix_of`
  str_lstrip (EXAMPLE_DOC_RST_TEMPLATE title name path docstring_rst screenshot_rst).
Proof.
  unfold EXAMPLE_DOC_RST_TEMPLATE. rewrite !lines_cons.
  eexists. reflexivity.
Qed.

Lemma lines_insert l1 x l2 : lines (l1 ++ x :: l2) = lines l1 ++ x ++ LF :: lines l2.
Proof. by rewrite lines_app, lines_cons. Qed.

(** X22: the document of an example whose snapshot was taken is the one of
    the example without a snapshot, with the screenshot block put in before
    the heading of the code: the two differ in nothing else. *)
Theorem screenshot_block_is_the_only_difference (script_path docstring : text) :
  ∃ above below,
    example_doc_rst script_path docstring false = above ++ LF :: below
    ∧ example_doc_rst script_path docstring true
      = above ++ SCREENSHOT_RST_TEMPLATE (script_image_name script_path) ++ LF :: below
    ∧ below = lines [ txt "Example Enaml Code"; RULE (chr 45);
                      txt ".. literalinclude:: ../../../" ++ relative_script_path script_path;
                      txt "    :language: enaml" ].
Proof.
  unfold example_doc_rst, EXAMPLE_DOC_RST_TEMPLATE. cbn [negb].
  match goal with
  | |- context [lines (?a1 :: ?a2 :: ?a3 :: ?a4 :: ?a5 :: ?a6 :: ?a7 :: ?a8 :: ?a9 :: ?a10
                       :: ?a11 :: ?a12 :: ?a13 :: ?a14 :: ?a15 :: ?a16 :: ?a17 :: [] :: ?rest)] =>
      set (head := [a1; a2; a3; a4; a5; a6; a7; a8; a9; a10; a11; a12; a13; a14; a15; a16; a17]);
      exists (lines head), (lines rest);
      split; [exact (lines_insert head [] rest)|];
      split; [|done];
      exact (lines_insert head (SCREENSHOT_RST_TEMPLATE (script_image_name script_path)) rest)
  end.
Qed.
